(** * svc-web-analyzer: the analysis pipeline, embedded and verified

  The first half embeds the Go code, package by package:
  - [GoStrings], [Regexp], [GoError], [NetURL], [Dom], [GoBreaker],
    [Resty]: the library values the code works on (byte strings, regular
    expressions, errors, parsed URLs, the parsed HTML tree, the circuit
    breaker and the HTTP client);
  - [Domain]: internal/domain (records, enumerations, typed errors);
  - [HTMLVersionDetect], [HTMLParser]: internal/adapters/html_analyzer.go;
  - [LinkChecker]: the link checker of internal/adapters;
  - [WebPageFetcher]: internal/adapters/web_fetcher.go;
  - [Service]: internal/service/application_service.go with the
    repositories it talks to;
  - [HTMLParserMore], [LinkCheckerMore]: the rest of the parser and of
    the link checker;
  - [InMemoryAnalysisRepository]:
    internal/adapters/in_memory_analysis_repository.go.
  The second half states and proves the properties, one module of facts
  per package. *)

From Stdlib Require Import ZArith List String Ascii Bool Lia.
From Stdlib Require Import Numbers.DecimalString.
From stdpp Require Import base option gmap strings list.

Set Warnings "-register-all".
Local Open Scope Z_scope.

(* ===================================================================== *)
(** ** Go byte strings *)
(* ===================================================================== *)

(** A Go [string] is a sequence of bytes; [string] of the Standard Library
  is exactly that.  The helpers below are the functions of package
  [strings] the service calls.  Case mapping is the ASCII one; bytes
  from 0x80 on are left as they are. *)
Module GoStrings.

Definition bytes_of (s : string) : list ascii := list_ascii_of_string s.

Definition byte (c : ascii) : N := N_of_ascii c.

Definition is_upper (c : ascii) : bool :=
  ((65 <=? byte c) && (byte c <=? 90))%N.

Definition is_lower (c : ascii) : bool :=
  ((97 <=? byte c) && (byte c <=? 122))%N.

Definition lower_byte (c : ascii) : ascii :=
  if is_upper c then ascii_of_N (byte c + 32) else c.

Definition upper_byte (c : ascii) : ascii :=
  if is_lower c then ascii_of_N (byte c - 32) else c.

Fixpoint map_bytes (f : ascii -> ascii) (s : string) : string :=
  match s with
  | EmptyString => EmptyString
  | String c s' => String (f c) (map_bytes f s')
  end.

Definition ToLower (s : string) : string := map_bytes lower_byte s.
Definition ToUpper (s : string) : string := map_bytes upper_byte s.

Definition HasPrefix (s p : string) : bool := String.prefix p s.

Definition HasSuffix (s suf : string) : bool :=
  let n := String.length s in
  let m := String.length suf in
  if (m <=? n)%nat then String.eqb (substring (n - m) m s) suf else false.

Fixpoint Contains (s sub : string) : bool :=
  String.prefix sub s ||
  match s with
  | EmptyString => false
  | String _ s' => Contains s' sub
  end.

(** [strings.Index]: the position of the first occurrence, if any. *)
Fixpoint Index (s sub : string) : option nat :=
  if String.prefix sub s then Some 0%nat
  else match s with
       | EmptyString => None
       | String _ s' => S <$> Index s' sub
       end.

(** [strings.LastIndex]. *)
Fixpoint LastIndex (s sub : string) : option nat :=
  match s with
  | EmptyString => if String.prefix sub s then Some 0%nat else None
  | String _ s' =>
      match LastIndex s' sub with
      | Some i => Some (S i)
      | None => if String.prefix sub s then Some 0%nat else None
      end
  end.

(** [strings.Cut]: the text before and after the first [sep]. *)
Definition Cut (s sep : string) : string * string * bool :=
  match Index s sep with
  | Some i =>
      (substring 0 i s,
       substring (i + String.length sep) (String.length s) s, true)
  | None => (s, EmptyString, false)
  end.

(** White space as [unicode.IsSpace] sees it, in its UTF-8 encoding:
    the six ASCII bytes, U+0085, U+00A0, U+1680, U+2000..U+200A,
    U+2028, U+2029, U+202F, U+205F and U+3000. *)
Definition x (n : N) : ascii := ascii_of_N n.

Definition space_runes : list (list ascii) :=
  [ [x 9]; [x 10]; [x 11]; [x 12]; [x 13]; [x 32];
    [x 194; x 133]; [x 194; x 160];
    [x 225; x 154; x 128];
    [x 226; x 128; x 128]; [x 226; x 128; x 129]; [x 226; x 128; x 130];
    [x 226; x 128; x 131]; [x 226; x 128; x 132]; [x 226; x 128; x 133];
    [x 226; x 128; x 134]; [x 226; x 128; x 135]; [x 226; x 128; x 136];
    [x 226; x 128; x 137]; [x 226; x 128; x 138];
    [x 226; x 128; x 168]; [x 226; x 128; x 169]; [x 226; x 128; x 175];
    [x 226; x 129; x 159];
    [x 227; x 128; x 128] ].

(** [strip w s]: [s] without its prefix [w], when it has that prefix. *)
Fixpoint strip (w s : list ascii) : option (list ascii) :=
  match w, s with
  | [], _ => Some s
  | a :: w', b :: s' => if Ascii.eqb a b then strip w' s' else None
  | _ :: _, [] => None
  end.

(** One leading rune of [s] removed when it is one of [runes]. *)
Fixpoint strip_any (runes : list (list ascii)) (s : list ascii)
  : option (list ascii) :=
  match runes with
  | [] => None
  | w :: rest =>
      match strip w s with
      | Some s' => Some s'
      | None => strip_any rest s
      end
  end.

Fixpoint trim_left_fuel (fuel : nat) (runes : list (list ascii))
  (s : list ascii) : list ascii :=
  match fuel with
  | O => s
  | S fuel' =>
      match strip_any runes s with
      | Some s' => trim_left_fuel fuel' runes s'
      | None => s
      end
  end.

(** Every strip removes at least one byte, so [length s] rounds empty
    the leading run. *)
Definition trim_left (runes : list (list ascii)) (s : list ascii)
  : list ascii :=
  trim_left_fuel (length s) runes s.

Definition trim_right (runes : list (list ascii)) (s : list ascii)
  : list ascii :=
  rev (trim_left (map (@rev ascii) runes) (rev s)).

Definition TrimSpaceBytes (s : list ascii) : list ascii :=
  trim_right space_runes (trim_left space_runes s).

Definition TrimSpace (s : string) : string :=
  string_of_list_ascii (TrimSpaceBytes (bytes_of s)).



(** A Go [map[string]bool] read with [m[k]]: absent keys read [false]. *)
Definition get (m : gmap string bool) (k : string) : bool :=
  default false (m !! k).

(** [%d] of [fmt]. *)
Definition Itoa (z : Z) : string := NilEmpty.string_of_int (Z.to_int z).

End GoStrings.

(* ===================================================================== *)
(** ** Regular expressions of the doctype patterns *)
(* ===================================================================== *)

(** The patterns of [ExtractHTMLVersion] are built from three things only:
  literal bytes under the flag [(?i)], [\s+] and [\s*].  [MatchString]
  reports whether some substring of the input is in the language, which
  is what the backtracking search below decides. *)
Module Regexp.
Import GoStrings.



(** [\s] is the class [\t\n\f\r ]. *)
Definition is_space (c : ascii) : bool :=
  existsb (Ascii.eqb c) [x 9; x 10; x 12; x 13; x 32].







End Regexp.

(* ===================================================================== *)
(** ** Go error values *)
(* ===================================================================== *)

Module GoError.

(** Package-level error variables, which the code compares by identity:
    those of gobreaker and those of internal/domain/errors.go. *)
Inductive sentinel : Type :=
| ErrOpenState | ErrTooManyRequests
| ErrAnalysisNotFound | ErrInvalidURL | ErrURLNotReachable
| ErrTimeoutExceeded | ErrInvalidRequest | ErrInternalServerError
| ErrUnauthorized | ErrRateLimitExceeded | ErrCircuitBreakerOpen
| ErrCacheUnavailable.

Definition sentinel_text (s : sentinel) : string :=
  match s with
  | ErrOpenState => "circuit breaker is open"
  | ErrTooManyRequests => "too many requests"
  | ErrAnalysisNotFound => "analysis not found"
  | ErrInvalidURL => "invalid URL"
  | ErrURLNotReachable => "URL not reachable"
  | ErrTimeoutExceeded => "analysis timeout exceeded"
  | ErrInvalidRequest => "invalid request"
  | ErrInternalServerError => "internal server error"
  | ErrUnauthorized => "unauthorized"
  | ErrRateLimitExceeded => "rate limit exceeded"
  | ErrCircuitBreakerOpen => "circuit breaker open"
  | ErrCacheUnavailable => "cache service unavailable"
  end.

(** A value stored in [DomainError.Details] (a [map[string]interface{}]). *)
Inductive detail : Type :=
| DString (s : string)
| DInt (z : Z).

(** [domain.DomainError], over the type of its [Cause]. *)
Record DomainErrorOf (E : Type) : Type :=
  { Code : string;
    Message : string;
    StatusCode : Z;
    Cause : option E;
    Details : gmap string detail }.
Arguments Code {E} _.
Arguments Message {E} _.
Arguments StatusCode {E} _.
Arguments Cause {E} _.
Arguments Details {E} _.

Inductive error : Type :=
| Sentinel (s : sentinel)
| errorString (msg : string)
    (* errors.New and fmt.Errorf without %w *)
| wrapError (prefix : string) (err : error)
    (* fmt.Errorf("prefix%w", err) *)
| domainError (d : DomainErrorOf error).

Definition DomainError := DomainErrorOf error.

Fixpoint Error (e : error) : string :=
  match e with
  | Sentinel s => sentinel_text s
  | errorString msg => msg
  | wrapError prefix err => prefix +:+ Error err
  | domainError d =>
      match d with
      | Build_DomainErrorOf _ _ message _ (Some cause) _ =>
          message +:+ ": " +:+ Error cause
      | Build_DomainErrorOf _ _ message _ None _ => message
      end
  end.

Definition Unwrap (e : error) : option error :=
  match e with
  | wrapError _ err => Some err
  | domainError d => Cause d
  | _ => None
  end.

(** [errors.Is(err, gobreaker.ErrOpenState)]: the sentinel somewhere on
    the [Unwrap] chain. *)
Fixpoint Is_sentinel (e : error) (s : sentinel) : bool :=
  match e with
  | Sentinel s' =>
      match s, s' with
      | ErrOpenState, ErrOpenState | ErrTooManyRequests, ErrTooManyRequests
      | ErrAnalysisNotFound, ErrAnalysisNotFound
      | ErrInvalidURL, ErrInvalidURL
      | ErrURLNotReachable, ErrURLNotReachable
      | ErrTimeoutExceeded, ErrTimeoutExceeded
      | ErrInvalidRequest, ErrInvalidRequest
      | ErrInternalServerError, ErrInternalServerError
      | ErrUnauthorized, ErrUnauthorized
      | ErrRateLimitExceeded, ErrRateLimitExceeded
      | ErrCircuitBreakerOpen, ErrCircuitBreakerOpen
      | ErrCacheUnavailable, ErrCacheUnavailable => true
      | _, _ => false
      end
  | errorString _ => false
  | wrapError _ err => Is_sentinel err s
  | domainError d =>
      match d with
      | Build_DomainErrorOf _ _ _ _ (Some cause) _ => Is_sentinel cause s
      | Build_DomainErrorOf _ _ _ _ None _ => false
      end
  end.

(** [err == gobreaker.ErrOpenState]: identity with the variable. *)
Definition is_ErrOpenState (e : error) : bool :=
  match e with
  | Sentinel ErrOpenState => true
  | _ => false
  end.

(** A call that returns [(value, error)]. *)
Inductive Result (A : Type) : Type :=
| Ok (a : A)
| Err (e : error).
Arguments Ok {A} a.
Arguments Err {A} e.

End GoError.

(* ===================================================================== *)
(** ** internal/domain *)
(* ===================================================================== *)

Module Domain.
Import GoError.

Inductive AnalysisStatus : Type :=
| StatusRequested | StatusInProgress | StatusCompleted | StatusFailed.

Inductive HTMLVersion : Type :=
| HTML5 | HTML401 | XHTML10 | XHTML11 | Unknown.

Definition HTMLVersion_string (v : HTMLVersion) : string :=
  match v with
  | HTML5 => "HTML5"
  | HTML401 => "HTML 4.01"
  | XHTML10 => "XHTML 1.0"
  | XHTML11 => "XHTML 1.1"
  | Unknown => "Unknown"
  end.

Inductive LinkType : Type := LinkTypeInternal | LinkTypeExternal.

Inductive FormMethod : Type := FormMethodPOST | FormMethodGET.

Record Link : Type := { link_URL : string; link_Type : LinkType }.

Record InaccessibleLink : Type :=
  { il_URL : string; il_StatusCode : Z; il_Error : string }.

Record LoginForm : Type :=
  { Method : FormMethod; Action : string; Fields : list string }.

Record FormAnalysis : Type :=
  { TotalCount : Z;
    LoginFormsDetected : Z;
    LoginFormDetails : list LoginForm }.

Record AnalysisOptions : Type :=
  { IncludeHeadings : bool;
    CheckLinks : bool;
    DetectForms : bool;
    Timeout : Z }.

(** The fields of [Analysis] the service reads or writes; the optional
    results and error are carried as opaque payloads. *)
Record Analysis : Type :=
  { ID : string;
    a_URL : string;
    Status : AnalysisStatus;
    CreatedAt : Z;
    CompletedAt : option Z;
    Duration : option Z;
    Results : option string;
    a_Error : option string }.

Record WebPageContent : Type :=
  { w_URL : string;
    w_StatusCode : Z;
    HTML : string;
    ContentType : string;
    Headers : gmap string string }.

Inductive EventType : Type :=
| EventTypeStarted | EventTypeProgress | EventTypeCompleted
| EventTypeFailed.

Definition EventType_string (t : EventType) : string :=
  match t with
  | EventTypeStarted => "analysis_started"
  | EventTypeProgress => "analysis_progress"
  | EventTypeCompleted => "analysis_completed"
  | EventTypeFailed => "analysis_failed"
  end.


(** errors.go *)
Definition NewDomainError (code message : string) (statusCode : Z)
  (cause : option error) : DomainError :=
  {| Code := code;
     Message := message;
     StatusCode := statusCode;
     Cause := cause;
     Details := ∅ |}.

Definition WithDetails (e : DomainError) (key : string) (value : detail)
  : DomainError :=
  {| Code := Code e;
     Message := Message e;
     StatusCode := StatusCode e;
     Cause := Cause e;
     Details := <[key := value]> (Details e) |}.

Definition NewURLNotReachableError (url : string) (statusCode : Z)
  (cause : option error) : DomainError :=
  WithDetails
    (WithDetails
       (NewDomainError "URL_NOT_REACHABLE"
          ("URL " +:+ url +:+ " is not reachable") statusCode cause)
       "url" (DString url))
    "status_code" (DInt statusCode).

Definition NewInvalidURLError (url : string) (cause : option error)
  : DomainError :=
  WithDetails
    (NewDomainError "INVALID_URL" ("Invalid URL: " +:+ url) 400 cause)
    "url" (DString url).

End Domain.

(* ===================================================================== *)
(** ** internal/adapters/html_analyzer.go: HTML version *)
(* ===================================================================== *)

Module HTMLVersionDetect.
Import GoStrings Regexp Domain.











End HTMLVersionDetect.


(* ===================================================================== *)
(** ** Parsed URLs (package net/url) *)
(* ===================================================================== *)

(** The record is [url.URL].  [Parse] follows the steps of [url.Parse]
    for a URL reference: control bytes rejected, fragment cut off, scheme
    split off and lower-cased, query cut off, a rootless rest after a
    scheme kept as [Opaque], authority split into user information and
    host with its optional port checked.  Percent-escapes are carried
    undecoded. *)
Module NetURL.
Import GoStrings GoError.

Record URL : Type :=
  { Scheme : string;
    Opaque : string;
    User : option string;
    Host : string;
    Path : string;
    RawQuery : string;
    ForceQuery : bool;
    Fragment : string }.

Definition empty_URL : URL :=
  {| Scheme := ""; Opaque := ""; User := None; Host := ""; Path := "";
     RawQuery := ""; ForceQuery := false; Fragment := "" |}.

Definition is_ctl (c : ascii) : bool :=
  ((byte c <? 32) || (byte c =? 127))%N.

Definition stringContainsCTLByte (s : string) : bool :=
  existsb is_ctl (bytes_of s).

Definition is_alpha (c : ascii) : bool := is_lower c || is_upper c.

Definition is_digit (c : ascii) : bool :=
  ((48 <=? byte c) && (byte c <=? 57))%N.

Definition drop_string (n : nat) (s : string) : string :=
  substring n (String.length s) s.

(** [getScheme]: [i] is the index reached, [s] the bytes from [i] on. *)
Fixpoint getScheme_at (rawURL : string) (i : nat) (s : string)
  : Result (string * string) :=
  match s with
  | EmptyString => Ok (EmptyString, rawURL)
  | String c s' =>
      if is_alpha c then getScheme_at rawURL (S i) s'
      else if is_digit c || Ascii.eqb c "+" || Ascii.eqb c "-"
              || Ascii.eqb c "."
      then match i with
           | O => Ok (EmptyString, rawURL)
           | S _ => getScheme_at rawURL (S i) s'
           end
      else if Ascii.eqb c ":"
      then match i with
           | O => Err (errorString "missing protocol scheme")
           | S _ => Ok (substring 0 i rawURL, s')
           end
      else Ok (EmptyString, rawURL)
  end.

Definition getScheme (rawURL : string) : Result (string * string) :=
  getScheme_at rawURL 0 rawURL.

Definition validOptionalPort (port : string) : bool :=
  match port with
  | EmptyString => true
  | String c digits => Ascii.eqb c ":" && forallb is_digit (bytes_of digits)
  end.

Definition parseHost (host : string) : Result string :=
  if HasPrefix host "["
  then match LastIndex host "]" with
       | None => Err (errorString "missing ']' in host")
       | Some i =>
           if validOptionalPort (drop_string (S i) host) then Ok host
           else Err (errorString "invalid port after host")
       end
  else match LastIndex host ":" with
       | Some i =>
           if validOptionalPort (drop_string i host) then Ok host
           else Err (errorString "invalid port after host")
       | None => Ok host
       end.

Definition parseAuthority (authority : string)
  : Result (option string * string) :=
  match LastIndex authority "@" with
  | None =>
      match parseHost authority with
      | Ok host => Ok (None, host)
      | Err e => Err e
      end
  | Some i =>
      match parseHost (drop_string (S i) authority) with
      | Ok host => Ok (Some (substring 0 i authority), host)
      | Err e => Err e
      end
  end.

Definition count_byte (c : ascii) (s : string) : nat :=
  length (filter (fun b => Ascii.eqb b c = true) (bytes_of s)).

Definition parse (rawURL : string) : Result URL :=
  if stringContainsCTLByte rawURL
  then Err (errorString "net/url: invalid control character in URL")
  else if String.eqb rawURL "*"
  then Ok {| Scheme := ""; Opaque := ""; User := None; Host := "";
             Path := "*"; RawQuery := ""; ForceQuery := false;
             Fragment := "" |}
  else
    match getScheme rawURL with
    | Err e => Err e
    | Ok (scheme, rest) =>
        let scheme := ToLower scheme in
        let '(rest, rawQuery, forceQuery) :=
          if HasSuffix rest "?" && Nat.eqb (count_byte "?" rest) 1
          then (substring 0 (String.length rest - 1) rest, EmptyString, true)
          else let '(before, after, _) := Cut rest "?" in
               (before, after, false) in
        if negb (HasPrefix rest "/") && negb (String.eqb scheme "")
        then Ok {| Scheme := scheme; Opaque := rest; User := None;
                   Host := ""; Path := ""; RawQuery := rawQuery;
                   ForceQuery := forceQuery; Fragment := "" |}
        else if negb (HasPrefix rest "/")
                && Contains (fst (fst (Cut rest "/"))) ":"
        then Err (errorString
                    "first path segment in URL cannot contain colon")
        else if (negb (String.eqb scheme "") || negb (HasPrefix rest "///"))
                && HasPrefix rest "//"
        then
          let authority := drop_string 2 rest in
          let '(authority, rest) :=
            match Index authority "/" with
            | Some i => (substring 0 i authority, drop_string i authority)
            | None => (authority, EmptyString)
            end in
          match parseAuthority authority with
          | Err e => Err e
          | Ok (user, host) =>
              Ok {| Scheme := scheme; Opaque := ""; User := user;
                    Host := host; Path := rest; RawQuery := rawQuery;
                    ForceQuery := forceQuery; Fragment := "" |}
          end
        else Ok {| Scheme := scheme; Opaque := ""; User := None;
                   Host := ""; Path := rest; RawQuery := rawQuery;
                   ForceQuery := forceQuery; Fragment := "" |}
    end.

Definition Parse (rawURL : string) : Result URL :=
  let '(u, frag, _) := Cut rawURL "#" in
  match parse u with
  | Err e => Err (wrapError "parse: " e)
  | Ok url =>
      Ok {| Scheme := Scheme url; Opaque := Opaque url; User := User url;
            Host := Host url; Path := Path url; RawQuery := RawQuery url;
            ForceQuery := ForceQuery url; Fragment := frag |}
  end.

End NetURL.

(* ===================================================================== *)
(** ** The parsed HTML tree and goquery selections *)
(* ===================================================================== *)

(** [goquery.NewDocumentFromReader] hands the analyzer the tree the HTML
    parser builds: elements (lower-case tag, attributes in source order,
    children) and text.  A document is the list of its top-level nodes. *)
Module Dom.

Inductive Node : Type :=
| Element (tag : string) (attrs : list (string * string))
    (children : list Node)
| TextNode (data : string).

Definition Document := list Node.

(** The nodes below [n], in document order. *)
Fixpoint descendants (n : Node) : list Node :=
  match n with
  | Element _ _ children =>
      (fix below (cs : list Node) : list Node :=
         match cs with
         | [] => []
         | c :: cs' => c :: descendants c ++ below cs'
         end) children
  | TextNode _ => []
  end.

Definition all_nodes (doc : Document) : list Node :=
  flat_map (fun n => n :: descendants n) doc.

(** [Selection.Attr]: the value of the first attribute named [key]. *)
Fixpoint lookup_attr (key : string) (attrs : list (string * string))
  : option string :=
  match attrs with
  | [] => None
  | (k, v) :: rest => if String.eqb k key then Some v else lookup_attr key rest
  end.

Definition Attr (n : Node) (key : string) : option string :=
  match n with
  | Element _ attrs _ => lookup_attr key attrs
  | TextNode _ => None
  end.

Definition AttrOr (n : Node) (key : string) (dflt : string) : string :=
  match Attr n key with
  | Some v => v
  | None => dflt
  end.

(** [Selection.Text]: the text of the node and of everything below it. *)
Fixpoint Text (n : Node) : string :=
  match n with
  | TextNode data => data
  | Element _ _ children =>
      (fix texts (cs : list Node) : string :=
         match cs with
         | [] => EmptyString
         | c :: cs' => Text c +:+ texts cs'
         end) children
  end.

(** The selectors the analyzer uses. *)
Inductive simple_selector : Type :=
| SelTag (tag : string)                           (* form *)
| SelTagHasAttr (tag attr : string)               (* p[href] *)
| SelTagAttrEq (tag attr value : string)          (* input[type='password'] *)
| SelAny.                                         (* * *)

(** A selector group: [input, select, textarea]. *)
Definition selector := list simple_selector.

Definition matches_simple (n : Node) (sel : simple_selector) : bool :=
  match n with
  | TextNode _ => false
  | Element tag attrs _ =>
      match sel with
      | SelTag t => String.eqb tag t
      | SelTagHasAttr t a =>
          String.eqb tag t && bool_decide (is_Some (lookup_attr a attrs))
      | SelTagAttrEq t a v =>
          String.eqb tag t &&
          match lookup_attr a attrs with
          | Some v' => String.eqb v' v
          | None => false
          end
      | SelAny => true
      end
  end.

(** An element the selector [input[type='password']] matches. *)
Definition is_password_input (n : Node) : Prop :=
  exists attrs children,
    n = Element "input" attrs children
    /\ lookup_attr "type" attrs = Some "password".

Definition matches (sel : selector) (n : Node) : bool :=
  existsb (matches_simple n) sel.

(** [Selection.Find] on one node: the matching nodes below it, in
    document order. *)
Definition Find (n : Node) (sel : selector) : list Node :=
  List.filter (matches sel) (descendants n).

(** [Document.Find]. *)
Definition doc_Find (doc : Document) (sel : selector) : list Node :=
  List.filter (matches sel) (all_nodes doc).

End Dom.

(* ===================================================================== *)
(** ** internal/adapters/html_analyzer.go: links and forms *)
(* ===================================================================== *)

Module HTMLParser.
Import GoStrings GoError NetURL Dom Domain.

Section WithURLPackage.

(** The three entry points of net/url the analyzer calls. *)
Variable url_Parse : string -> Result URL.
Variable url_ResolveReference : URL -> URL -> URL.
Variable url_String : URL -> string.

(** The body of the callback given to [Each] in [ExtractLinks]; the
    accumulator holds [links] and [seen]. *)
Definition link_step (baseURLParsed : URL)
  (acc : list Link * gmap string bool) (s : Node)
  : list Link * gmap string bool :=
  let '(links, seen) := acc in
  match Attr s "href" with
  | None => acc
  | Some href =>
      if String.eqb href "" then acc
      else
        match url_Parse href with
        | Err _ => acc
        | Ok parsedURL =>
            let resolvedURL := url_ResolveReference baseURLParsed parsedURL in
            let finalURL := url_String resolvedURL in
            if get seen finalURL then acc
            else
              let seen := <[finalURL := true]> seen in
              if String.eqb finalURL "" || HasPrefix href "#"
                 || HasPrefix href "javascript:"
                 || HasPrefix href "mailto:"
                 || HasPrefix href "tel:"
              then (links, seen)
              else
                let linkType :=
                  if String.eqb (Host resolvedURL) (Host baseURLParsed)
                  then LinkTypeInternal else LinkTypeExternal in
                (links ++ [ {| link_URL := finalURL; link_Type := linkType |} ], seen)
        end
  end.

Definition ExtractLinks (doc : Document) (baseURL : string)
  : Result (list Link) :=
  match url_Parse baseURL with
  | Err err => Err err
  | Ok baseURLParsed =>
      let '(links, _) :=
        fold_left (link_step baseURLParsed)
          (doc_Find doc [SelTagHasAttr "p" "href"]) ([], ∅) in
      Ok links
  end.

Definition isLikelyLoginForm (fields : list string) (formSelection : Node)
  : bool :=
  let fieldMap : gmap string bool :=
    fold_left (fun m field => <[ToLower field := true]> m) fields ∅ in
  let hasUsernameField :=
    get fieldMap "username" || get fieldMap "user" || get fieldMap "email"
    || get fieldMap "login" || get fieldMap "userid"
    || get fieldMap "user_name" || get fieldMap "user_email"
    || get fieldMap "account" in
  let hasPasswordField :=
    get fieldMap "password" || get fieldMap "passwd" || get fieldMap "pwd"
    || get fieldMap "pass" || get fieldMap "user_password"
    || get fieldMap "userpassword" in
  let hasPasswordInput :=
    existsb (fun _ => true)
      (Find formSelection [SelTagAttrEq "input" "type" "password"]) in
  let formText := ToLower (Text formSelection) in
  let hasLoginText :=
    Contains formText "login" || Contains formText "sign in"
    || Contains formText "log in" || Contains formText "signin"
    || Contains formText "authenticate" in
  let hasLoginClass :=
    existsb
      (fun s =>
         let class := ToLower (AttrOr s "class" "") in
         let id := ToLower (AttrOr s "id" "") in
         Contains class "login" || Contains class "signin"
         || Contains id "login" || Contains id "signin")
      (Find formSelection [SelAny]) in
  (hasUsernameField && hasPasswordField)
  || hasPasswordInput
  || (hasLoginText && (hasUsernameField || hasPasswordField))
  || hasLoginClass.

(** The inner [Each] of [ExtractForms]: the field names, once each, in
    document order. *)
Definition field_step (acc : list string * gmap string bool) (field : Node)
  : list string * gmap string bool :=
  let '(fields, fieldNames) := acc in
  let name := AttrOr field "name" "" in
  if negb (String.eqb name "") && negb (get fieldNames name)
  then (fields ++ [name], <[name := true]> fieldNames)
  else acc.

Definition form_fields (s : Node) : list string :=
  fst (fold_left field_step
         (Find s [SelTag "input"; SelTag "select"; SelTag "textarea"])
         ([], ∅)).

Definition form_method (s : Node) : string :=
  let method := ToUpper (TrimSpace (AttrOr s "method" "GET")) in
  if negb (String.eqb method "POST") && negb (String.eqb method "GET")
  then "GET" else method.

Definition FormMethod_of (method : string) : FormMethod :=
  if String.eqb method "POST" then FormMethodPOST else FormMethodGET.

Definition form_action (baseURLParsed : URL) (s : Node) : string :=
  let action := AttrOr s "action" "" in
  if negb (String.eqb action "")
  then match url_Parse action with
       | Ok parsedAction =>
           url_String (url_ResolveReference baseURLParsed parsedAction)
       | Err _ => action
       end
  else action.

(** The entry [ExtractForms] builds for a form it flags. *)
Definition login_form_of (baseURLParsed : URL) (s : Node) : LoginForm :=
  {| Method := FormMethod_of (form_method s);
     Action := form_action baseURLParsed s;
     Fields := form_fields s |}.

(** The body of the outer [Each]; the accumulator holds [loginForms] and
    [totalForms]. *)
Definition form_step (baseURLParsed : URL) (acc : list LoginForm * Z)
  (s : Node) : list LoginForm * Z :=
  let '(loginForms, totalForms) := acc in
  let totalForms := totalForms + 1 in
  let method := form_method s in
  let action := form_action baseURLParsed s in
  let fields := form_fields s in
  if isLikelyLoginForm fields s
  then (loginForms ++ [ {| Method := FormMethod_of method;
                           Action := action;
                           Fields := fields |} ], totalForms)
  else (loginForms, totalForms).

Definition ExtractForms (doc : Document) (baseURL : string) : FormAnalysis :=
  match url_Parse baseURL with
  | Err _ =>
      {| TotalCount := 0; LoginFormsDetected := 0; LoginFormDetails := [] |}
  | Ok baseURLParsed =>
      let '(loginForms, totalForms) :=
        fold_left (form_step baseURLParsed) (doc_Find doc [SelTag "form"])
          ([], 0) in
      {| TotalCount := totalForms;
         LoginFormsDetected := Z.of_nat (length loginForms);
         LoginFormDetails := loginForms |}
  end.

End WithURLPackage.

End HTMLParser.

(* ===================================================================== *)
(** ** Collaborators: circuit breaker and HTTP client *)
(* ===================================================================== *)

(** gobreaker, as far as one call sees it: [Execute] asks [beforeRequest]
    whether the call may go out and otherwise returns the request's own
    result.  The state is the one the breaker is in when the call
    arrives. *)
Module GoBreaker.
Import GoError.

Inductive State : Type := StateClosed | StateHalfOpen | StateOpen.

Record CircuitBreaker : Type :=
  { state : State;
    requests : Z;        (* counts.Requests *)
    maxRequests : Z }.

Definition beforeRequest (cb : CircuitBreaker) : option error :=
  match state cb with
  | StateOpen => Some (Sentinel ErrOpenState)
  | StateHalfOpen =>
      if requests cb >=? maxRequests cb
      then Some (Sentinel ErrTooManyRequests) else None
  | StateClosed => None
  end.

Definition Execute {A : Type} (cb : CircuitBreaker)
  (req : unit -> Result A) : Result A :=
  match beforeRequest cb with
  | Some err => Err err
  | None => req tt
  end.

End GoBreaker.

(** resty: a request either fails below HTTP or yields a response. *)
Module Resty.
Import GoError.

Inductive Method : Type := HEAD | GET.

Record Response : Type :=
  { StatusCode : Z;
    Status : string;                       (* e.g. "404 Not Found" *)
    Body : string;
    Header : gmap string (list string);
    RequestURL : string }.

Definition Client := Method -> string -> Result Response.

(** [http.Header.Get]: the first value of the key, or the empty string. *)
Definition Header_Get (h : gmap string (list string)) (key : string)
  : string :=
  match h !! key with
  | Some (v :: _) => v
  | _ => EmptyString
  end.

End Resty.

(* ===================================================================== *)
(** ** internal/adapters: the link checker *)
(* ===================================================================== *)

Module LinkChecker.
Import GoStrings GoError NetURL Domain GoBreaker.

Definition maxConcurrentLinkChecks : nat := 10.
Definition maxLinksToCheck : nat := 100.

Record linkCheckResult : Type :=
  { lcr_StatusCode : Z; lcr_Error : string }.

Definition performLinkCheck (client : Resty.Client) (linkURL : string)
  : Result linkCheckResult :=
  let resp :=
    match client Resty.HEAD linkURL with
    | Ok resp => Ok resp
    | Err _ => client Resty.GET linkURL
    end in
  match resp with
  | Err err => Err err
  | Ok resp =>
      Ok {| lcr_StatusCode := Resty.StatusCode resp;
            lcr_Error := if Resty.StatusCode resp >=? 400
                         then Resty.Status resp else EmptyString |}
  end.


Definition checkSingleLink (cb : CircuitBreaker) (client : Resty.Client)
  (link : Link) : option InaccessibleLink :=
  match Execute cb (fun _ => performLinkCheck client (link_URL link)) with
  | Err err =>
      if is_ErrOpenState err
      then Some {| il_URL := link_URL link;
                   il_StatusCode := 503;
                   il_Error :=
                     "Service temporarily unavailable (circuit breaker open)" |}
      else Some {| il_URL := link_URL link;
                   il_StatusCode := 0;
                   il_Error := Error err |}
  | Ok checkResult =>
      if lcr_StatusCode checkResult >=? 400
      then Some {| il_URL := link_URL link;
                   il_StatusCode := lcr_StatusCode checkResult;
                   il_Error := lcr_Error checkResult |}
      else None
  end.

(** *** [checkLinksWithConcurrency] as a transition system

    One goroutine per link.  A goroutine is at one of the program points
    below; the shared variables are the buffered channel [semaphore] (its
    number of queued tokens), the wait group counter, the mutex and the
    slice of results. *)

Inductive worker : Type :=
| Blocked                                   (* at [semaphore <- struct{}{}] *)
| Probing                                   (* inside [checkSingleLink] *)
| Probed (r : option InaccessibleLink)      (* result in hand *)
| Locked (e : InaccessibleLink)             (* after [mu.Lock()] *)
| Unlocking (e : InaccessibleLink)          (* appended, at [mu.Unlock()] *)
| Releasing (r : option InaccessibleLink)   (* at deferred [<-semaphore] *)
| Finishing (r : option InaccessibleLink)   (* at deferred [wg.Done()] *)
| Exited (r : option InaccessibleLink).

Record shared : Type :=
  { semaphore : nat;
    wg : nat;
    mu : bool;
    inaccessibleLinks : list InaccessibleLink }.

Inductive main_pc : Type :=
| Spawning                                  (* in the [for] loop *)
| Waiting                                   (* at [wg.Wait()] *)
| Returned (result : list InaccessibleLink).

Record fanout : Type :=
  { pc : main_pc;
    todo : list Link;                       (* links not yet ranged over *)
    workers : list (Link * worker);
    sh : shared }.

Definition init (links : list Link) : fanout :=
  {| pc := Spawning; todo := links; workers := [];
     sh := {| semaphore := 0; wg := 0; mu := false;
              inaccessibleLinks := [] |} |}.

Section Machine.

Variable MaxConcurrentChecks : nat.

(** One step of the goroutine started for [link]. *)
Inductive wstep (link : Link) : worker * shared -> worker * shared -> Prop :=
| w_acquire (s : shared) :
    (semaphore s < MaxConcurrentChecks)%nat ->
    wstep link (Blocked, s)
      (Probing, {| semaphore := S (semaphore s); wg := wg s; mu := mu s;
                   inaccessibleLinks := inaccessibleLinks s |})
| w_probe (s : shared) (cb : CircuitBreaker) (client : Resty.Client) :
    wstep link (Probing, s) (Probed (checkSingleLink cb client link), s)
| w_accessible (s : shared) :
    wstep link (Probed None, s) (Releasing None, s)
| w_lock (s : shared) (e : InaccessibleLink) :
    mu s = false ->
    wstep link (Probed (Some e), s)
      (Locked e, {| semaphore := semaphore s; wg := wg s; mu := true;
                    inaccessibleLinks := inaccessibleLinks s |})
| w_append (s : shared) (e : InaccessibleLink) :
    wstep link (Locked e, s)
      (Unlocking e, {| semaphore := semaphore s; wg := wg s; mu := mu s;
                       inaccessibleLinks := inaccessibleLinks s ++ [e] |})
| w_unlock (s : shared) (e : InaccessibleLink) :
    wstep link (Unlocking e, s)
      (Releasing (Some e),
       {| semaphore := semaphore s; wg := wg s; mu := false;
          inaccessibleLinks := inaccessibleLinks s |})
| w_release (s : shared) (r : option InaccessibleLink) :
    wstep link (Releasing r, s)
      (Finishing r, {| semaphore := pred (semaphore s); wg := wg s;
                       mu := mu s;
                       inaccessibleLinks := inaccessibleLinks s |})
| w_done (s : shared) (r : option InaccessibleLink) :
    wstep link (Finishing r, s)
      (Exited r, {| semaphore := semaphore s; wg := pred (wg s); mu := mu s;
                    inaccessibleLinks := inaccessibleLinks s |}).

Inductive step : fanout -> fanout -> Prop :=
| step_spawn (link : Link) (rest : list Link) (ws : list (Link * worker))
    (s : shared) :
    step {| pc := Spawning; todo := link :: rest; workers := ws; sh := s |}
         {| pc := Spawning; todo := rest;
            workers := ws ++ [(link, Blocked)];
            sh := {| semaphore := semaphore s; wg := S (wg s); mu := mu s;
                     inaccessibleLinks := inaccessibleLinks s |} |}
| step_loop_end (ws : list (Link * worker)) (s : shared) :
    step {| pc := Spawning; todo := []; workers := ws; sh := s |}
         {| pc := Waiting; todo := []; workers := ws; sh := s |}
| step_return (ws : list (Link * worker)) (s : shared) :
    wg s = 0%nat ->
    step {| pc := Waiting; todo := []; workers := ws; sh := s |}
         {| pc := Returned (inaccessibleLinks s); todo := [];
            workers := ws; sh := s |}
| step_worker (p : main_pc) (td : list Link)
    (l1 l2 : list (Link * worker)) (link : Link) (w w' : worker)
    (s s' : shared) :
    wstep link (w, s) (w', s') ->
    step {| pc := p; todo := td; workers := l1 ++ (link, w) :: l2; sh := s |}
         {| pc := p; todo := td; workers := l1 ++ (link, w') :: l2;
            sh := s' |}.

Definition reachable (links : list Link) (s : fanout) : Prop :=
  rtc step (init links) s.

End Machine.

(** Observations on a state. *)
Definition holds_slot (w : worker) : bool :=
  match w with
  | Probing | Probed _ | Locked _ | Unlocking _ | Releasing _ => true
  | _ => false
  end.

Definition in_flight (w : worker) : bool :=
  match w with
  | Probing => true
  | _ => false
  end.

Definition holds_mutex (w : worker) : bool :=
  match w with
  | Locked _ | Unlocking _ => true
  | _ => false
  end.

Definition exited (w : worker) : bool :=
  match w with
  | Exited _ => true
  | _ => false
  end.

Definition count (f : worker -> bool) (ws : list (Link * worker)) : nat :=
  length (List.filter (fun lw => f (snd lw)) ws).

(** The entry a goroutine has appended to the slice, if it has. *)
Definition appended (lw : Link * worker) : option InaccessibleLink :=
  match snd lw with
  | Unlocking e => Some e
  | Releasing r | Finishing r | Exited r => r
  | _ => None
  end.

(** The outcome of a goroutine that has run to its end. *)
Definition outcome (lw : Link * worker) : option InaccessibleLink :=
  match snd lw with
  | Exited r => r
  | _ => None
  end.

Definition live (w : worker) : bool := negb (exited w).

(** What holds in every state the fan-out can reach. *)
Record invariant (MaxConcurrentChecks : nat) (links : list Link)
  (s : fanout) : Prop :=
  { inv_slots : semaphore (sh s) = count holds_slot (workers s);
    inv_capacity : (semaphore (sh s) <= MaxConcurrentChecks)%nat;
    inv_wg : wg (sh s) = count live (workers s);
    inv_mutex :
      count holds_mutex (workers s) = if mu (sh s) then 1%nat else 0%nat;
    inv_links : map fst (workers s) ++ todo s = links;
    inv_loop : pc s <> Spawning -> todo s = [];
    inv_returned :
      forall result, pc s = Returned result ->
                     result = inaccessibleLinks (sh s)
                     /\ wg (sh s) = 0%nat;
    inv_results :
      inaccessibleLinks (sh s) ≡ₚ omap appended (workers s) }.

End LinkChecker.

(* ===================================================================== *)
(** ** internal/adapters/web_fetcher.go *)
(* ===================================================================== *)

Module WebPageFetcher.
Import GoStrings GoError NetURL Domain GoBreaker.

Record WebFetcherConfig : Type :=
  { MaxResponseSizeBytes : Z }.

Definition isHTMLContent (contentType : string) : bool :=
  let contentType := ToLower contentType in
  Contains contentType "text/html" || Contains contentType "application/xhtml".

Definition privateHosts : list string :=
  [ "localhost"; "127.0.0.1"; "::1"; "0.0.0.0" ].

Definition privatePrefixes : list string :=
  [ "10."; "172.16."; "172.17."; "172.18."; "172.19."; "172.20.";
    "172.21."; "172.22."; "172.23."; "172.24."; "172.25."; "172.26.";
    "172.27."; "172.28."; "172.29."; "172.30."; "172.31."; "192.168." ].

Definition isPrivateOrLocalURL (host : string) : bool :=
  let hostLower := ToLower host in
  existsb (fun privateHost =>
             String.eqb hostLower privateHost
             || HasSuffix hostLower ("." +:+ privateHost)) privateHosts
  || existsb (HasPrefix hostLower) privatePrefixes.

Section WithURLPackage.

Variable url_Parse : string -> Result URL.

(** [None] is the nil error. *)
Definition validateURL (targetURL : string) : option error :=
  if String.eqb targetURL "" then Some (errorString "URL cannot be empty")
  else
    match url_Parse targetURL with
    | Err err => Some (wrapError "invalid URL format: " err)
    | Ok parsedURL =>
        if String.eqb (Scheme parsedURL) ""
        then Some (errorString "URL must include a scheme (http or https)")
        else if negb (String.eqb (Scheme parsedURL) "http")
                && negb (String.eqb (Scheme parsedURL) "https")
        then Some (errorString ("URL scheme must be http or https, got: "
                                +:+ Scheme parsedURL))
        else if String.eqb (Host parsedURL) ""
        then Some (errorString "URL must include a host")
        else if isPrivateOrLocalURL (Host parsedURL)
        then Some (errorString
                     "access to private or local networks is not allowed")
        else None
    end.

Definition fetchWithRetry (config : WebFetcherConfig)
  (client : Resty.Client) (targetURL : string) : Result WebPageContent :=
  match client Resty.GET targetURL with
  | Err err =>
      Err (domainError (NewURLNotReachableError targetURL 0 (Some err)))
  | Ok resp =>
      let status := Resty.StatusCode resp in
      if (status <? 200) || (status >=? 300)
      then Err (domainError
                  (NewURLNotReachableError targetURL status
                     (Some (errorString ("HTTP " +:+ Itoa status +:+ ": "
                                         +:+ Resty.Status resp)))))
      else
        let size := Z.of_nat (String.length (Resty.Body resp)) in
        if size >? MaxResponseSizeBytes config
        then Err (domainError
                    (NewDomainError "RESPONSE_TOO_LARGE"
                       ("Response size " +:+ Itoa size
                        +:+ " bytes exceeds maximum allowed "
                        +:+ Itoa (MaxResponseSizeBytes config) +:+ " bytes")
                       413 (Some (errorString "response too large"))))
        else
          Ok {| w_URL := Resty.RequestURL resp;
                w_StatusCode := status;
                HTML := Resty.Body resp;
                ContentType :=
                  Resty.Header_Get (Resty.Header resp) "Content-Type";
                Headers := omap head (Resty.Header resp) |}
  end.

(** [Fetch].  The per-call timeout is a setting of the client and shows
    only in what the client answers. *)
Definition Fetch (config : WebFetcherConfig) (cb : CircuitBreaker)
  (client : Resty.Client) (targetURL : string) : Result WebPageContent :=
  match validateURL targetURL with
  | Some err => Err (domainError (NewInvalidURLError targetURL (Some err)))
  | None =>
      match Execute cb (fun _ => fetchWithRetry config client targetURL) with
      | Err err =>
          if Is_sentinel err ErrOpenState
          then Err (domainError
                      (NewDomainError "CIRCUIT_BREAKER_OPEN"
                         "Service temporarily unavailable due to repeated failures"
                         503 (Some err)))
          else Err err
      | Ok content => Ok content
      end
  end.

End WithURLPackage.

(** The errors [Fetch] can return, by code and HTTP status. *)
Definition fetch_refusal (e : error) : Prop :=
  (exists d, e = domainError d
             /\ ((Code d = "INVALID_URL" /\ StatusCode d = 400)
                 \/ (Code d = "CIRCUIT_BREAKER_OPEN" /\ StatusCode d = 503)
                 \/ (Code d = "RESPONSE_TOO_LARGE" /\ StatusCode d = 413)
                 \/ (Code d = "URL_NOT_REACHABLE"
                     /\ (StatusCode d < 200 \/ 300 <= StatusCode d))))
  \/ e = Sentinel ErrTooManyRequests.

End WebPageFetcher.

(* ===================================================================== *)
(** ** internal/service/application_service.go *)
(* ===================================================================== *)

Module Service.
Import GoStrings GoError Domain.

(** *** internal/ports: the repositories as interfaces

    A method takes the repository's state and returns the new state with
    its Go results. *)
Class Finder (R : Type) : Type :=
  Find : R -> string -> R * Result Analysis.

Class Saver (R : Type) : Type :=
  Save : R -> string -> AnalysisOptions -> R * Result Analysis.

Class Setter (R : Type) : Type :=
  Set_ : R -> Analysis -> R * option error.

Class AnalysisRepository (R : Type) : Type :=
  { repo_Finder :: Finder R;
    repo_Saver :: Saver R }.

Class CacheRepository (R : Type) : Type :=
  { cache_Finder :: Finder R;
    cache_Setter :: Setter R }.

(** What a recording double of the two repositories would have seen. *)
Inductive Call : Type :=
| DurableSave (url : string) (options : AnalysisOptions)
| DurableFind (analysisID : string)
| CacheFind (analysisID : string)
| CacheSet (analysis : Analysis).

Section WithRepositories.

Context {D C : Type} `{!AnalysisRepository D} `{!CacheRepository C}.

(** The fields of [analysisService], the calls made so far, and what the
    logger was given at error level. *)
Record world : Type :=
  { analysisRepo : D;
    cacheRepo : C;
    calls : list Call;
    logged : list (error * string) }.

(** State passing, with the usual notation. *)
Definition M (A : Type) : Type := world -> A * world.

Definition ret {A : Type} (a : A) : M A := fun w => (a, w).

Definition bind {A B : Type} (m : M A) (k : A -> M B) : M B :=
  fun w => let '(a, w') := m w in k a w'.

Notation "'call' x <- m ; k" := (bind m (fun x => k))
  (at level 10, x name, m at level 100, k at level 200).
Notation "'exec' m ; k" := (bind m (fun _ => k))
  (at level 10, m at level 100, k at level 200).

Definition analysisRepo_Save (url : string) (options : AnalysisOptions)
  : M (Result Analysis) :=
  fun w =>
    let '(d, r) := Save (analysisRepo w) url options in
    (r, {| analysisRepo := d; cacheRepo := cacheRepo w;
           calls := calls w ++ [DurableSave url options];
           logged := logged w |}).

Definition analysisRepo_Find (analysisID : string) : M (Result Analysis) :=
  fun w =>
    let '(d, r) := Find (analysisRepo w) analysisID in
    (r, {| analysisRepo := d; cacheRepo := cacheRepo w;
           calls := calls w ++ [DurableFind analysisID];
           logged := logged w |}).

Definition cacheRepo_Find (analysisID : string) : M (Result Analysis) :=
  fun w =>
    let '(c, r) := Find (cacheRepo w) analysisID in
    (r, {| analysisRepo := analysisRepo w; cacheRepo := c;
           calls := calls w ++ [CacheFind analysisID];
           logged := logged w |}).

Definition cacheRepo_Set (analysis : Analysis) : M (option error) :=
  fun w =>
    let '(c, r) := Set_ (cacheRepo w) analysis in
    (r, {| analysisRepo := analysisRepo w; cacheRepo := c;
           calls := calls w ++ [CacheSet analysis];
           logged := logged w |}).

Definition logger_Error (err : error) (msg : string) : M unit :=
  fun w =>
    (tt, {| analysisRepo := analysisRepo w; cacheRepo := cacheRepo w;
            calls := calls w;
            logged := logged w ++ [(err, msg)] |}).

Definition StartAnalysis (url : string) (options : AnalysisOptions)
  : M (Result Analysis) :=
  call r <- analysisRepo_Save url options;
  match r with
  | Err err => ret (Err err)
  | Ok analysis =>
      call cacheErr <- cacheRepo_Set analysis;
      exec match cacheErr with
           | Some e => logger_Error e "failed to save analysis to the cache"
           | None => ret tt
           end;
      ret (Ok analysis)
  end.

Definition FetchAnalysis (analysisID : string) : M (Result Analysis) :=
  call r <- cacheRepo_Find analysisID;
  match r with
  | Ok analysis => ret (Ok analysis)
  | Err _ =>
      call r <- analysisRepo_Find analysisID;
      match r with
      | Err err => ret (Err (wrapError "failed to find analysis: " err))
      | Ok analysis =>
          call cacheErr <- cacheRepo_Set analysis;
          exec match cacheErr with
               | Some e => logger_Error e "failed to save analysis to the cache"
               | None => ret tt
               end;
          ret (Ok analysis)
      end
  end.




End WithRepositories.

Arguments world : clear implicits.

(** The event type that goes with a status. *)
Definition event_of_status (s : AnalysisStatus) : EventType :=
  match s with
  | StatusRequested => EventTypeStarted
  | StatusInProgress => EventTypeProgress
  | StatusCompleted => EventTypeCompleted
  | StatusFailed => EventTypeFailed
  end.

Definition is_DurableFind (c : Call) : bool :=
  match c with DurableFind _ => true | _ => false end.

Definition is_CacheSet (c : Call) : bool :=
  match c with CacheSet _ => true | _ => false end.

(** How many calls of a kind a trace holds. *)
Definition times (kind : Call -> bool) (trace : list Call) : nat :=
  length (List.filter kind trace).

(** *** The repositories of internal/adapters *)

Definition analysisKeyPrefix : string := "svc-web-analyzer:analysis:".

(** The storage client with the table [analysis]: whether a connection
    can be had, whether the next statement fails, the rows by id, and
    what [uuid.New] and [time.Now] give next. *)
Record Storage : Type :=
  { connection_error : option error;
    statement_error : option error;
    rows : gmap string Analysis;
    next_uuid : nat;
    now : Z }.

Definition uuid_of (n : nat) : string := "uuid-" +:+ Itoa (Z.of_nat n).

Definition PostgresRepository_Find (db : Storage) (analysisID : string)
  : Storage * Result Analysis :=
  match connection_error db with
  | Some err => (db, Err (wrapError "failed to get database connection: " err))
  | None =>
      match statement_error db with
      | Some err => (db, Err (wrapError "failed to query analysis: " err))
      | None =>
          match rows db !! analysisID with
          | None =>
              (db, Err (errorString ("analysis with ID " +:+ analysisID
                                     +:+ " not found")))
          | Some analysis => (db, Ok analysis)
          end
      end
  end.

Definition PostgresRepository_Save (db : Storage) (url : string)
  (options : AnalysisOptions) : Storage * Result Analysis :=
  match connection_error db with
  | Some err => (db, Err (wrapError "failed to get database connection: " err))
  | None =>
      let analysis :=
        {| ID := uuid_of (next_uuid db);
           a_URL := url;
           Status := StatusRequested;
           CreatedAt := now db;
           CompletedAt := None;
           Duration := None;
           Results := None;
           a_Error := None |} in
      let db := {| connection_error := connection_error db;
                   statement_error := statement_error db;
                   rows := rows db;
                   next_uuid := S (next_uuid db);
                   now := now db |} in
      match statement_error db with
      | Some err => (db, Err (wrapError "failed to save analysis: " err))
      | None =>
          ({| connection_error := connection_error db;
              statement_error := statement_error db;
              rows := <[ID analysis := analysis]> (rows db);
              next_uuid := next_uuid db;
              now := now db |}, Ok analysis)
      end
  end.

#[export] Instance PostgresRepository : AnalysisRepository Storage :=
  {| repo_Finder := PostgresRepository_Find;
     repo_Saver := PostgresRepository_Save |}.

(** The key-value client: its entries by key, and the error it answers
    every call with while the service is away. *)
Record KeydbClient : Type :=
  { unavailable : option error;
    entries : gmap string Analysis }.

Definition CacheRepository_Find (client : KeydbClient) (analysisID : string)
  : KeydbClient * Result Analysis :=
  let key := analysisKeyPrefix +:+ analysisID in
  match unavailable client with
  | Some err => (client, Err err)
  | None =>
      match entries client !! key with
      | None => (client, Err (Sentinel ErrCacheUnavailable))
      | Some analysis => (client, Ok analysis)
      end
  end.

Definition CacheRepository_Set (client : KeydbClient) (analysis : Analysis)
  : KeydbClient * option error :=
  let key := analysisKeyPrefix +:+ ID analysis in
  match unavailable client with
  | Some err => (client, Some err)
  | None =>
      ({| unavailable := None;
          entries := <[key := analysis]> (entries client) |}, None)
  end.

#[export] Instance KeydbCache : CacheRepository KeydbClient :=
  {| cache_Finder := CacheRepository_Find;
     cache_Setter := CacheRepository_Set |}.

End Service.

(* ===================================================================== *)
(** ** internal/adapters/html_analyzer.go: title and headings *)
(* ===================================================================== *)

Module HTMLParserMore.
Import GoStrings GoError NetURL Dom Domain Regexp HTMLParser.





(** [regexp.MustCompile(`\s+`).ReplaceAllString(title, " ")]: every
    maximal run of [\s] bytes becomes one space; [in_run] tells that the
    byte before was part of such a run. *)
Fixpoint collapse (in_run : bool) (s : list ascii) : list ascii :=
  match s with
  | [] => []
  | c :: s' =>
      if is_space c
      then if in_run then collapse true s' else " "%char :: collapse true s'
      else c :: collapse false s'
  end.

(** [Selection.First().Text()]: the text of the first node, or the empty
    string for an empty selection. *)
Definition First_Text (sel : list Node) : string :=
  match sel with
  | [] => EmptyString
  | n :: _ => Text n
  end.

Definition ExtractTitle_bytes (doc : Document) : list ascii :=
  let title :=
    TrimSpaceBytes (bytes_of (First_Text (doc_Find doc [SelTag "title"]))) in
  collapse false title.

Definition ExtractTitle (doc : Document) : string :=
  string_of_list_ascii (ExtractTitle_bytes doc).







Section WithURLPackage.

Variable url_Parse : string -> Result URL.
Variable url_ResolveReference : URL -> URL -> URL.
Variable url_String : URL -> string.

(** [href] is one of the references [ExtractLinks] drops. *)
Definition skipped_href (href : string) : bool :=
  HasPrefix href "#" || HasPrefix href "javascript:"
  || HasPrefix href "mailto:" || HasPrefix href "tel:".

(** [l] is the link [ExtractLinks] makes of the element [s]. *)
Definition link_of (base : URL) (s : Node) (l : Link) : Prop :=
  exists href parsed,
    Attr s "href" = Some href
    /\ href <> ""
    /\ skipped_href href = false
    /\ url_Parse href = Ok parsed
    /\ link_URL l = url_String (url_ResolveReference base parsed)
    /\ link_URL l <> ""
    /\ link_Type l
       = if String.eqb (Host (url_ResolveReference base parsed)) (Host base)
         then LinkTypeInternal else LinkTypeExternal.

(** What the loop of [ExtractLinks] keeps true of [links] and [seen]
    after the elements [visited]. *)
Record links_inv (base : URL) (visited : list Node)
  (acc : list Link * gmap string bool) : Prop :=
  { li_nodup : List.NoDup (map link_URL (fst acc));
    li_seen : forall l, In l (fst acc) -> get (snd acc) (link_URL l) = true;
    li_origin :
      forall l, In l (fst acc) -> exists s, In s visited /\ link_of base s l;
    li_length : (length (fst acc) <= length visited)%nat }.

(** The forms [ExtractForms] flags, in document order. *)
Definition flagged_forms (doc : Document) : list Node :=
  List.filter (fun form => isLikelyLoginForm (form_fields form) form)
    (doc_Find doc [SelTag "form"]).

End WithURLPackage.

End HTMLParserMore.

(* ===================================================================== *)
(** ** internal/adapters: the link checker, around the fan-out *)
(* ===================================================================== *)

Module LinkCheckerMore.
Import GoStrings GoError NetURL Domain GoBreaker LinkChecker.

Section WithURLPackage.

Variable url_Parse : string -> Result URL.

(** The body of the loop of [filterExternalLinks]; the accumulator holds
    [externalLinks] and [seen]. *)
Definition filter_step (acc : list Link * gmap string bool) (link : Link)
  : list Link * gmap string bool :=
  let '(externalLinks, seen) := acc in
  match link_Type link with
  | LinkTypeInternal => acc
  | LinkTypeExternal =>
      if get seen (link_URL link) then acc
      else
        let seen := <[link_URL link := true]> seen in
        match url_Parse (link_URL link) with
        | Err _ => (externalLinks, seen)
        | Ok _ => (externalLinks ++ [link], seen)
        end
  end.

Definition filterExternalLinks (links : list Link) : list Link :=
  fst (fold_left filter_step links ([], ∅)).

(** [url.Parse] accepts [u]. *)
Definition parses (u : string) : Prop := exists url, url_Parse u = Ok url.

(** The links [CheckAccessibility] goes on to probe; [None] is the
    run-time panic of slicing with a negative bound. *)
Definition links_to_check (MaxLinksToCheck : Z) (links : list Link)
  : option (list Link) :=
  let externalLinks := filterExternalLinks links in
  if Z.of_nat (length externalLinks) >? MaxLinksToCheck
  then if MaxLinksToCheck <? 0 then None
       else Some (take (Z.to_nat MaxLinksToCheck) externalLinks)
  else Some externalLinks.

(** [CheckAccessibility] returns [result]: at once for no links,
    otherwise when the fan-out over the links to check has returned. *)
Definition CheckAccessibility_returns (MaxLinksToCheck : Z)
  (MaxConcurrentChecks : nat) (links : list Link)
  (result : list InaccessibleLink) : Prop :=
  match links with
  | [] => result = []
  | _ :: _ =>
      exists to_check s,
        links_to_check MaxLinksToCheck links = Some to_check
        /\ reachable MaxConcurrentChecks to_check s
        /\ pc s = Returned result
  end.

End WithURLPackage.

(** The entry a goroutine holds or has appended. *)
Definition carried (w : worker) : option InaccessibleLink :=
  match w with
  | Probed r | Releasing r | Finishing r | Exited r => r
  | Locked e | Unlocking e => Some e
  | Blocked | Probing => None
  end.

(** A status an entry of the result can have: 0 for a failed request,
    or an HTTP status from 400 on. *)
Definition failing_status (e : InaccessibleLink) : Prop :=
  il_StatusCode e = 0 \/ 400 <= il_StatusCode e.

(** The entry a goroutine carries is about its own link, with a failing
    status. *)
Definition own_entry (lw : Link * worker) : Prop :=
  forall e, carried (snd lw) = Some e ->
            il_URL e = link_URL (fst lw) /\ failing_status e.

(** How many steps a goroutine has left at most. *)
Definition rank (w : worker) : nat :=
  match w with
  | Blocked => 7
  | Probing => 6
  | Probed _ => 5
  | Locked _ => 4
  | Unlocking _ => 3
  | Releasing _ => 2
  | Finishing _ => 1
  | Exited _ => 0
  end.

Definition pc_rank (p : main_pc) : nat :=
  match p with
  | Spawning => 2
  | Waiting => 1
  | Returned _ => 0
  end.

(** A bound on the steps the whole fan-out has left. *)
Definition measure (s : fanout) : nat :=
  pc_rank (pc s) + 8 * length (todo s)
  + list_sum (map (fun lw => rank (snd lw)) (workers s)).

Definition returned (s : fanout) : bool :=
  match pc s with
  | Returned _ => true
  | _ => false
  end.

(** Goroutines whose next step waits for nothing. *)
Definition free_to_run (w : worker) : bool :=
  match w with
  | Probing | Probed None | Locked _ | Unlocking _ | Releasing _
  | Finishing _ => true
  | _ => false
  end.

Definition wants_mutex (w : worker) : bool :=
  match w with
  | Probed (Some _) => true
  | _ => false
  end.

Definition blocked (w : worker) : bool :=
  match w with
  | Blocked => true
  | _ => false
  end.

End LinkCheckerMore.

(* ===================================================================== *)
(** ** internal/adapters/in_memory_analysis_repository.go *)
(* ===================================================================== *)

Module InMemoryAnalysisRepository.
Import GoStrings GoError Domain.

(** The field [data], a [map[uuid.UUID]*domain.Analysis], by the text of
    the id.  [deepCopyAnalysis] goes through JSON and yields a record
    with the same fields, so that what is stored and what is handed out
    are values of their own. *)
Abbreviation data := (gmap string Analysis).

Definition uuid_Nil : string := "00000000-0000-0000-0000-000000000000".

Definition NewInMemoryAnalysisRepository : data := ∅.

Definition deepCopyAnalysis (analysis : Analysis) : Analysis := analysis.

Definition Create (r : data) (analysis : Analysis) : data * option error :=
  if String.eqb (ID analysis) uuid_Nil
  then (r, Some (errorString "analysis ID cannot be nil"))
  else
    match r !! ID analysis with
    | Some _ =>
        (r, Some (errorString ("analysis with ID " +:+ ID analysis
                               +:+ " already exists")))
    | None => (<[ID analysis := deepCopyAnalysis analysis]> r, None)
    end.

Definition GetByID (r : data) (id : string) : Result Analysis :=
  match r !! id with
  | None => Err (Sentinel ErrAnalysisNotFound)
  | Some analysis => Ok (deepCopyAnalysis analysis)
  end.

Definition Update (r : data) (analysis : Analysis) : data * option error :=
  if String.eqb (ID analysis) uuid_Nil
  then (r, Some (errorString "analysis ID cannot be nil"))
  else
    match r !! ID analysis with
    | None => (r, Some (Sentinel ErrAnalysisNotFound))
    | Some _ => (<[ID analysis := deepCopyAnalysis analysis]> r, None)
    end.

Definition Delete (r : data) (id : string) : data * option error :=
  match r !! id with
  | None => (r, Some (Sentinel ErrAnalysisNotFound))
  | Some _ => (delete id r, None)
  end.

Definition Count (r : data) : Z := Z.of_nat (size r).

Definition has_status (status : AnalysisStatus) (analysis : Analysis)
  : bool :=
  match status, Status analysis with
  | StatusRequested, StatusRequested
  | StatusInProgress, StatusInProgress
  | StatusCompleted, StatusCompleted
  | StatusFailed, StatusFailed => true
  | _, _ => false
  end.

(** The test of [CleanupOldAnalyses]: completed, with a completion time
    before the cutoff. *)
Definition stale (cutoff : Z) (analysis : Analysis) : bool :=
  has_status StatusCompleted analysis
  && match CompletedAt analysis with
     | Some t => t <? cutoff
     | None => false
     end.

(** [CleanupOldAnalyses] at the time [now]: the entries left and the
    number deleted. *)
Definition CleanupOldAnalyses (r : data) (now olderThan : Z) : data * Z :=
  let cutoff := now - olderThan in
  (filter (fun kv => stale cutoff (snd kv) = false) r,
   Z.of_nat (size (filter (fun kv => stale cutoff (snd kv) = true) r))).

(** The operations a caller can apply, and the repository after a run of
    them. *)
Inductive op : Type :=
| OpCreate (analysis : Analysis)
| OpUpdate (analysis : Analysis)
| OpDelete (id : string)
| OpCleanup (now olderThan : Z).

Definition apply (r : data) (o : op) : data :=
  match o with
  | OpCreate analysis => fst (Create r analysis)
  | OpUpdate analysis => fst (Update r analysis)
  | OpDelete id => fst (Delete r id)
  | OpCleanup now olderThan => fst (CleanupOldAnalyses r now olderThan)
  end.

Definition run (ops : list op) : data :=
  fold_left apply ops NewInMemoryAnalysisRepository.

End InMemoryAnalysisRepository.

(* ===================================================================== *)
(** ** Inputs used in the statements below *)
(* ===================================================================== *)

Module Examples.
Import GoStrings GoError NetURL Dom Domain HTMLVersionDetect.



(** The tree of
    [<a href="https://example.com/p"></a><a href="https://example.com/p"></a>
     <a href="#x"></a><a href="javascript:void(0)"></a>]:
    the parser supplies [html], [head] and [body]. *)
Definition anchors_doc : Document :=
  [ Element "html" []
      [ Element "head" [] [];
        Element "body" []
          [ Element "a" [("href", "https://example.com/p")] [];
            Element "a" [("href", "https://example.com/p")] [];
            Element "a" [("href", "#x")] [];
            Element "a" [("href", "javascript:void(0)")] [] ] ] ].

(** The tree of
    [<form method="post"><input type="password" name="pw"></form>]. *)
Definition password_form : Node :=
  Element "form" [("method", "post")]
    [ Element "input" [("type", "password"); ("name", "pw")] [] ].

(** A closed breaker, an open one, and clients that answer every request
    alike. *)
Definition closed_breaker : GoBreaker.CircuitBreaker :=
  {| GoBreaker.state := GoBreaker.StateClosed;
     GoBreaker.requests := 0;
     GoBreaker.maxRequests := 3 |}.

Definition open_breaker : GoBreaker.CircuitBreaker :=
  {| GoBreaker.state := GoBreaker.StateOpen;
     GoBreaker.requests := 0;
     GoBreaker.maxRequests := 3 |}.

Definition answer (status : Z) (text : string) : Resty.Response :=
  {| Resty.StatusCode := status;
     Resty.Status := text;
     Resty.Body := "";
     Resty.Header := ∅;
     Resty.RequestURL := "https://example.com" |}.

Definition client_answering (status : Z) (text : string) : Resty.Client :=
  fun _ _ => Ok (answer status text).

Definition client_failing (err : error) : Resty.Client :=
  fun _ _ => Err err.

(** One link, its goroutine inside [checkSingleLink]. *)
Definition probing_state (link : Link) : LinkChecker.fanout :=
  {| LinkChecker.pc := LinkChecker.Spawning;
     LinkChecker.todo := [];
     LinkChecker.workers := [(link, LinkChecker.Probing)];
     LinkChecker.sh :=
       {| LinkChecker.semaphore := 1; LinkChecker.wg := 1;
          LinkChecker.mu := false;
          LinkChecker.inaccessibleLinks := [] |} |}.

Definition external_link : Link :=
  {| link_URL := "https://other.com/page"; link_Type := LinkTypeExternal |}.

(** A database that works, with no rows yet, and a cache that is away. *)
Definition empty_storage : Service.Storage :=
  {| Service.connection_error := None;
     Service.statement_error := None;
     Service.rows := ∅;
     Service.next_uuid := 1;
     Service.now := 1700000000 |}.

Definition cache_away : Service.KeydbClient :=
  {| Service.unavailable := Some (Sentinel ErrCacheUnavailable);
     Service.entries := ∅ |}.

Definition cache_up : Service.KeydbClient :=
  {| Service.unavailable := None; Service.entries := ∅ |}.

Definition start_world (cache : Service.KeydbClient)
  : Service.world Service.Storage Service.KeydbClient :=
  {| Service.analysisRepo := empty_storage;
     Service.cacheRepo := cache;
     Service.calls := [];
     Service.logged := [] |}.

Definition stored_analysis : Analysis :=
  {| ID := "uuid-7"; a_URL := "https://example.com";
     Status := StatusCompleted; CreatedAt := 1700000000;
     CompletedAt := Some 1700000005; Duration := Some 5000;
     Results := Some "{}"; a_Error := None |}.

Definition storage_with_row : Service.Storage :=
  {| Service.connection_error := None;
     Service.statement_error := None;
     Service.rows := {[ "uuid-7" := stored_analysis ]};
     Service.next_uuid := 8;
     Service.now := 1700000100 |}.

Definition fetch_world (cache : Service.KeydbClient)
  : Service.world Service.Storage Service.KeydbClient :=
  {| Service.analysisRepo := storage_with_row;
     Service.cacheRepo := cache;
     Service.calls := [];
     Service.logged := [] |}.

Definition defaultOptions : AnalysisOptions :=
  {| IncludeHeadings := true; CheckLinks := true; DetectForms := true;
     Timeout := 30 |}.

Definition fetcher_config : WebPageFetcher.WebFetcherConfig :=
  {| WebPageFetcher.MaxResponseSizeBytes := 10485760 |}.

Definition password_doc : Document :=
  [ Element "html" []
      [ Element "head" [] []; Element "body" [] [ password_form ] ] ].

End Examples.

(** Further inputs. *)
Module MoreExamples.
Import GoStrings GoError NetURL Dom Domain.

(** [URL.String] for a URL of scheme, host and path. *)
Definition url_text (u : URL) : string :=
  Scheme u +:+ "://" +:+ Host u +:+ Path u.

(** A sign-in form with a field named twice and a field without a name,
    and a search form. *)
Definition sign_in_form : Node :=
  Element "form"
    [("method", "post"); ("action", "https://example.com/login")]
    [ Element "input" [("name", "Username")] [];
      Element "input" [("name", "PassWord")] [];
      Element "input" [("name", "Username")] [];
      Element "input" [] [] ].

Definition search_form : Node :=
  Element "form" [] [ Element "input" [("name", "q")] [] ].

(** A page with a title, three headings, four [p] elements that carry an
    [href], and the two forms. *)
Definition page_doc : Document :=
  [ Element "html" []
      [ Element "head" []
          [ Element "title" [] [ TextNode "  My   page  " ] ];
        Element "body" []
          [ Element "h1" [] [ TextNode "One" ];
            Element "h2" [] [];
            Element "h2" [] [];
            Element "p" [("href", "https://example.com/a")] [];
            Element "p" [("href", "https://example.com/a")] [];
            Element "p" [("href", "#x")] [];
            Element "p" [("href", "https://other.com/b")] [];
            sign_in_form;
            search_form ] ] ].

Definition link_a : Link :=
  {| link_URL := "https://other.com/a"; link_Type := LinkTypeExternal |}.

Definition link_b : Link :=
  {| link_URL := "https://other.com/b"; link_Type := LinkTypeExternal |}.

Definition link_home : Link :=
  {| link_URL := "https://example.com/"; link_Type := LinkTypeInternal |}.

Definition some_links : list Link := [link_a; link_home; link_a; link_b].

(** The entry for a link that answers 404. *)
Definition entry_404 : InaccessibleLink :=
  {| il_URL := "https://other.com/page"; il_StatusCode := 404;
     il_Error := "404 Not Found" |}.

(** The fan-out over one link with its goroutine in state [w]. *)
Definition fanout_at (p : LinkChecker.main_pc) (w : LinkChecker.worker)
  (semaphore wg : nat) (mu : bool) (result : list InaccessibleLink)
  : LinkChecker.fanout :=
  {| LinkChecker.pc := p;
     LinkChecker.todo := [];
     LinkChecker.workers := [(Examples.external_link, w)];
     LinkChecker.sh :=
       {| LinkChecker.semaphore := semaphore; LinkChecker.wg := wg;
          LinkChecker.mu := mu;
          LinkChecker.inaccessibleLinks := result |} |}.

(** A repository with one completed record. *)
Definition one_record : gmap string Analysis :=
  {[ "uuid-7" := Examples.stored_analysis ]}.

End MoreExamples.

(* ===================================================================== *)
(** * Properties *)
(* ===================================================================== *)

(** ** Byte strings and patterns *)

Module StringFacts.
Import GoStrings Regexp.


Lemma strip_Some (w s s' : list ascii) :
  strip w s = Some s' <-> s = w ++ s'.
Proof.
  revert s. induction w as [|a w IH]; intros s; simpl.
  - split; [by intros [= ->] | by intros ->].
  - destruct s as [|b s]; [split; discriminate|].
    destruct (Ascii.eqb_spec a b) as [->|Hne].
    + rewrite IH. split; [by intros -> | by intros [= ->]].
    + split; [discriminate | intros [= -> _]; by destruct Hne].
Qed.

Lemma strip_app (w s t s' : list ascii) :
  strip w s = Some s' -> strip w (s ++ t) = Some (s' ++ t).
Proof.
  rewrite !strip_Some. intros ->. by rewrite app_assoc.
Qed.

Lemma strip_any_Some (runes : list (list ascii)) (s s' : list ascii) :
  strip_any runes s = Some s' -> exists w, In w runes /\ s = w ++ s'.
Proof.
  induction runes as [|w runes IH]; simpl; [discriminate|].
  destruct (strip w s) as [s0|] eqn:Hw.
  - intros [= <-]. exists w. split; [by left | by apply strip_Some].
  - intros H. destruct (IH H) as (w' & Hin & ->). exists w'. auto.
Qed.

(** Trimming only removes bytes at the two ends. *)
Lemma trim_left_fuel_suffix (n : nat) (runes : list (list ascii))
  (s : list ascii) :
  exists a, s = a ++ trim_left_fuel n runes s.
Proof.
  revert s. induction n as [|n IH]; intros s; simpl.
  - by exists [].
  - destruct (strip_any runes s) as [s'|] eqn:Hs; [|by exists []].
    destruct (strip_any_Some _ _ _ Hs) as (w & _ & ->).
    destruct (IH s') as (a & Ha). exists (w ++ a).
    by rewrite <- app_assoc, <- Ha.
Qed.

Lemma trim_right_prefix (runes : list (list ascii)) (s : list ascii) :
  exists b, s = trim_right runes s ++ b.
Proof.
  unfold trim_right, trim_left.
  destruct (trim_left_fuel_suffix (length (rev s)) (map (@rev ascii) runes)
              (rev s)) as (a & Ha).
  exists (rev a).
  rewrite <- rev_app_distr, <- Ha. by rewrite rev_involutive.
Qed.


(** The fuel of [trim_left] is enough: nothing is left to strip. *)
Lemma trim_left_fuel_done (runes : list (list ascii)) :
  Forall (fun w => w <> []) runes ->
  forall (n : nat) (s : list ascii),
    (length s <= n)%nat ->
    strip_any runes (trim_left_fuel n runes s) = None.
Proof.
  intros Hne. induction n as [|n IH]; intros s Hlen; simpl.
  - destruct s; [|simpl in Hlen; lia].
    clear Hlen. induction Hne as [|w runes Hw _ IHr]; simpl; [done|].
    destruct w; [done|]. simpl. exact IHr.
  - destruct (strip_any runes s) as [s'|] eqn:Hs; [|done].
    apply IH. destruct (strip_any_Some _ _ _ Hs) as (w & Hin & ->).
    rewrite List.Forall_forall in Hne. specialize (Hne w Hin).
    destruct w; [done|]. rewrite length_app in Hlen. simpl in *. lia.
Qed.

Lemma trim_left_space_done (s : list ascii) :
  strip_any space_runes (trim_left space_runes s) = None.
Proof.
  apply trim_left_fuel_done; [|done].
  repeat constructor; discriminate.
Qed.














End StringFacts.

(** ** HTML version detection *)

Module HTMLVersionFacts.
Import GoStrings Regexp Domain HTMLVersionDetect StringFacts Examples.







End HTMLVersionFacts.

(** ** Links and forms *)

Module HTMLParserFacts.
Import GoStrings GoError NetURL Dom Domain HTMLParser Examples.

(** Without a [p] element that carries an [href], [ExtractLinks] finds
    nothing: anchors are never looked at. *)
Lemma ExtractLinks_without_p (url_Parse : string -> Result URL)
  (url_ResolveReference : URL -> URL -> URL) (url_String : URL -> string)
  (doc : Document) (baseURL : string) (base : URL) :
  url_Parse baseURL = Ok base ->
  doc_Find doc [SelTagHasAttr "p" "href"] = [] ->
  ExtractLinks url_Parse url_ResolveReference url_String doc baseURL
  = Ok [].
Proof. unfold ExtractLinks. by intros -> ->. Qed.

(** C1 (the code departs from it): on the page with the anchor to
    https://example.com/p twice, an anchor to [#x] and a javascript
    anchor, [ExtractLinks] returns no link at all, because it visits the
    [p] elements that carry an [href], not the anchors. *)
Theorem ExtractLinks_anchors_doc_empty :
  forall (url_ResolveReference : URL -> URL -> URL)
         (url_String : URL -> string),
    ExtractLinks Parse url_ResolveReference url_String anchors_doc
      "https://example.com" = Ok [].
Proof. intros. reflexivity. Qed.

Lemma password_input_found (form n : Node) :
  In n (descendants form) -> is_password_input n ->
  In n (Find form [SelTagAttrEq "input" "type" "password"]).
Proof.
  intros Hin (attrs & children & -> & Ht). unfold Find.
  apply filter_In. split; [done|]. simpl. by rewrite Ht.
Qed.

Lemma isLikelyLoginForm_password_input (fields : list string)
  (form n : Node) :
  In n (descendants form) -> is_password_input n ->
  isLikelyLoginForm fields form = true.
Proof.
  intros Hin Hpw. unfold isLikelyLoginForm.
  assert (H : existsb (fun _ => true)
                (Find form [SelTagAttrEq "input" "type" "password"]) = true).
  { apply existsb_exists. exists n. split; [|done].
    by apply password_input_found. }
  rewrite H. by rewrite orb_true_r.
Qed.

Section Forms.

Variable url_Parse : string -> Result URL.
Variable url_ResolveReference : URL -> URL -> URL.
Variable url_String : URL -> string.

Local Abbreviation form_step' :=
  (form_step url_Parse url_ResolveReference url_String).
Local Abbreviation login_form' :=
  (login_form_of url_Parse url_ResolveReference url_String).

Lemma form_step_keeps (base : URL) (forms : list Node)
  (acc : list LoginForm * Z) (lf : LoginForm) :
  In lf (fst acc) -> In lf (fst (fold_left (form_step' base) forms acc)).
Proof.
  revert acc. induction forms as [|f forms IH]; intros [lfs n] Hin;
    simpl; [done|].
  apply IH. unfold form_step.
  destruct (isLikelyLoginForm _ f); simpl in *; [|done].
  apply in_or_app. by left.
Qed.

Lemma form_step_flags (base : URL) (forms : list Node)
  (acc : list LoginForm * Z) (form : Node) :
  In form forms ->
  isLikelyLoginForm (form_fields form) form = true ->
  In (login_form' base form)
    (fst (fold_left (form_step' base) forms acc)).
Proof.
  revert acc. induction forms as [|f forms IH]; intros [lfs n] Hin Hlogin;
    [done|].
  destruct Hin as [->|Hin]; [|by apply IH].
  simpl. apply form_step_keeps. unfold form_step.
  rewrite Hlogin. simpl. apply in_or_app. right. by left.
Qed.

(** C8: a form with an [input] of type password below it is flagged as a
    login form whatever its fields are, and [ExtractForms] reports it
    among the login forms of the page. *)
Theorem password_input_makes_login_form :
  forall (form n : Node),
    In n (descendants form) -> is_password_input n ->
    (forall fields, isLikelyLoginForm fields form = true)
    /\ (forall (doc : Document) (baseURL : string) (base : URL),
           url_Parse baseURL = Ok base ->
           In form (doc_Find doc [SelTag "form"]) ->
           let analysis :=
             ExtractForms url_Parse url_ResolveReference url_String
               doc baseURL in
           In (login_form' base form) (LoginFormDetails analysis)
           /\ 1 <= LoginFormsDetected analysis).
Proof.
  intros form n Hin Hpw. split.
  - intros fields. by apply (isLikelyLoginForm_password_input _ _ n).
  - intros doc baseURL base Hbase Hform. unfold ExtractForms.
    rewrite Hbase.
    pose proof (form_step_flags base (doc_Find doc [SelTag "form"]) ([], 0)
                  form Hform
                  (isLikelyLoginForm_password_input _ _ n Hin Hpw)) as Hfl.
    destruct (fold_left (form_step' base) _ ([], 0)) as [lfs total] eqn:Hf.
    simpl in *. split; [done|].
    destruct lfs; [done | simpl; lia].
Qed.

End Forms.

Lemma password_input_makes_login_form_witness :
  isLikelyLoginForm [] password_form = true
  /\ In {| Method := FormMethodPOST; Action := ""; Fields := ["pw"] |}
       (LoginFormDetails
          (ExtractForms Parse (fun _ ref => ref) Path password_doc
             "https://example.com")).
Proof.
  pose proof (password_input_makes_login_form Parse (fun _ ref => ref) Path
                password_form
                (Element "input" [("type", "password"); ("name", "pw")] [])
                ltac:(simpl; auto)
                ltac:(by eexists _, _)) as [Hflag Hforms].
  split; [apply Hflag|].
  eapply (proj1 (Hforms password_doc "https://example.com" _
                   ltac:(reflexivity) ltac:(simpl; auto))).
Defined.

(** The page of C8, evaluated: one form, one login form, method POST. *)
Lemma ExtractForms_password_doc (url_ResolveReference : URL -> URL -> URL)
  (url_String : URL -> string) :
  ExtractForms Parse url_ResolveReference url_String password_doc
    "https://example.com"
  = {| TotalCount := 1;
       LoginFormsDetected := 1;
       LoginFormDetails :=
         [ {| Method := FormMethodPOST; Action := ""; Fields := ["pw"] |} ] |}.
Proof. reflexivity. Qed.

End HTMLParserFacts.

(** ** The fetcher *)

Module WebPageFetcherFacts.
Import GoStrings GoError NetURL Domain GoBreaker WebPageFetcher.

(** What [validateURL] does reject, for any parser: the empty URL, a
    scheme other than http and https, an empty host, and a [Host] that
    [isPrivateOrLocalURL] recognises. *)
Lemma validateURL_rejects (url_Parse : string -> Result URL)
  (targetURL : string) :
  targetURL = ""
  \/ (exists err, url_Parse targetURL = Err err)
  \/ (exists u, url_Parse targetURL = Ok u
                /\ (Scheme u <> "http" /\ Scheme u <> "https"
                    \/ Host u = ""
                    \/ isPrivateOrLocalURL (Host u) = true)) ->
  validateURL url_Parse targetURL <> None.
Proof.
  unfold validateURL.
  destruct (String.eqb_spec targetURL "") as [->|Hne]; [done|].
  intros [?|[(err & ->)|(u & -> & H)]]; [done|done|].
  destruct (String.eqb_spec (Scheme u) ""); [done|].
  destruct (String.eqb_spec (Scheme u) "http") as [Hs|Hs];
    destruct (String.eqb_spec (Scheme u) "https") as [Hs'|Hs']; simpl;
    try done.
  all: destruct H as [[? ?]|[H|H]]; try done.
  all: try (rewrite H; done).
  all: destruct (String.eqb_spec (Host u) ""); [done|]; by rewrite H.
Qed.

(** C2 (the code departs from it): the four cases the claim names come
    out as it says, but a loopback host followed by a port, and the
    bracketed IPv6 loopback, pass validation: the comparison with the
    listed hosts is made on [Host], which holds the port and the
    brackets. *)
Theorem validateURL_loopback_with_port :
  validateURL Parse "http://127.0.0.1:8080/x" = None
  /\ validateURL Parse "http://localhost:8080" = None
  /\ validateURL Parse "http://0.0.0.0:80/" = None
  /\ validateURL Parse "http://[::1]/" = None
  /\ (exists u, Parse "http://127.0.0.1:8080/x" = Ok u
                /\ Host u = "127.0.0.1:8080")
  /\ validateURL Parse "http://127.0.0.1/x" <> None
  /\ validateURL Parse "http://localhost" <> None
  /\ validateURL Parse "http://192.168.1.1" <> None
  /\ validateURL Parse "https://example.com" = None.
Proof.
  repeat apply conj; try reflexivity; try (by vm_compute).
  by eexists.
Qed.

(** C7: once the URL is valid and the breaker lets the call out, a
    response whose status is outside 200..299 makes [Fetch] return the
    URL_NOT_REACHABLE error with that status and no content, and a failure
    below HTTP makes it return the same error with status 0. *)
Theorem Fetch_not_reachable :
  forall (url_Parse : string -> Result URL) (config : WebFetcherConfig)
         (cb : CircuitBreaker) (client : Resty.Client) (targetURL : string),
    validateURL url_Parse targetURL = None ->
    beforeRequest cb = None ->
    (forall resp,
        client Resty.GET targetURL = Ok resp ->
        Resty.StatusCode resp < 200 \/ 300 <= Resty.StatusCode resp ->
        exists d,
          Fetch url_Parse config cb client targetURL = Err (domainError d)
          /\ Code d = "URL_NOT_REACHABLE"
          /\ StatusCode d = Resty.StatusCode resp
          /\ Details d !! "status_code"
             = Some (DInt (Resty.StatusCode resp))
          /\ Details d !! "url" = Some (DString targetURL)
          /\ Message d = "URL " +:+ targetURL +:+ " is not reachable")
    /\ (forall err,
           client Resty.GET targetURL = Err err ->
           Is_sentinel err ErrOpenState = false ->
           exists d,
             Fetch url_Parse config cb client targetURL = Err (domainError d)
             /\ Code d = "URL_NOT_REACHABLE"
             /\ StatusCode d = 0
             /\ Details d !! "status_code" = Some (DInt 0)
             /\ Cause d = Some err).
Proof.
  intros url_Parse config cb client targetURL Hvalid Hcb. split.
  - intros resp Hresp Hstatus.
    eexists. unfold Fetch, Execute, fetchWithRetry.
    rewrite Hvalid, Hcb, Hresp.
    assert (Hout : (Resty.StatusCode resp <? 200)
                   || (Resty.StatusCode resp >=? 300) = true).
    { apply orb_true_iff. destruct Hstatus; [left|right]; lia. }
    rewrite Hout. cbn [Is_sentinel NewURLNotReachableError WithDetails
                        NewDomainError Code Message StatusCode Cause
                        Details].
    repeat apply conj; reflexivity.
  - intros err Herr Hnot.
    eexists. unfold Fetch, Execute, fetchWithRetry.
    rewrite Hvalid, Hcb, Herr.
    cbn [Is_sentinel NewURLNotReachableError WithDetails NewDomainError
         Code Message StatusCode Cause Details].
    rewrite Hnot.
    repeat apply conj; reflexivity.
Qed.

Lemma Fetch_not_reachable_witness :
  exists d,
    Fetch Parse Examples.fetcher_config Examples.closed_breaker
      (Examples.client_answering 404 "404 Not Found") "https://example.com"
    = Err (domainError d)
    /\ Code d = "URL_NOT_REACHABLE"
    /\ StatusCode d = 404.
Proof.
  destruct (proj1 (Fetch_not_reachable Parse Examples.fetcher_config
                     Examples.closed_breaker
                     (Examples.client_answering 404 "404 Not Found")
                     "https://example.com" eq_refl eq_refl)
              (Examples.answer 404 "404 Not Found") eq_refl
              ltac:(right; simpl; lia))
    as (d & Hfetch & Hcode & Hstatus & _).
  exists d. repeat apply conj; assumption.
Defined.

End WebPageFetcherFacts.

(** ** The link checker: one probe *)

Module LinkCheckerFacts.
Import GoStrings GoError NetURL Domain GoBreaker LinkChecker.





End LinkCheckerFacts.

(** ** The service *)

Module ServiceFacts.
Import GoStrings GoError Domain Service.

Section WithRepositories.

Context {D C : Type} `{!AnalysisRepository D} `{!CacheRepository C}.

Local Abbreviation world' := (world D C).

(** C3: a cache hit is returned without a call to the durable store; on
    any cache error the durable store is read exactly once, a successful
    read is followed by exactly one cache write whose outcome does not
    matter, and a failed read is what the caller gets back (wrapped), with
    no cache write. *)
Theorem FetchAnalysis_cache_aside :
  forall (w : world') (analysisID : string),
    let result := fst (FetchAnalysis analysisID w) in
    let w' := snd (FetchAnalysis analysisID w) in
    (forall c' analysis,
        Find (cacheRepo w) analysisID = (c', Ok analysis) ->
        result = Ok analysis
        /\ calls w' = calls w ++ [CacheFind analysisID]
        /\ analysisRepo w' = analysisRepo w)
    /\ (forall c' cacheErr d' analysis c'' setErr,
           Find (cacheRepo w) analysisID = (c', Err cacheErr) ->
           Find (analysisRepo w) analysisID = (d', Ok analysis) ->
           Set_ c' analysis = (c'', setErr) ->
           result = Ok analysis
           /\ calls w' = calls w ++ [CacheFind analysisID;
                                     DurableFind analysisID;
                                     CacheSet analysis]
           /\ cacheRepo w' = c'')
    /\ (forall c' cacheErr d' err,
           Find (cacheRepo w) analysisID = (c', Err cacheErr) ->
           Find (analysisRepo w) analysisID = (d', Err err) ->
           result = Err (wrapError "failed to find analysis: " err)
           /\ (exists e, result = Err e /\ Unwrap e = Some err)
           /\ calls w' = calls w ++ [CacheFind analysisID;
                                     DurableFind analysisID])
    /\ (forall c' cacheErr,
           Find (cacheRepo w) analysisID = (c', Err cacheErr) ->
           exists trace,
             calls w' = calls w ++ trace
             /\ times is_DurableFind trace = 1%nat
             /\ (times is_CacheSet trace <= 1)%nat).
Proof.
  intros w analysisID result w'. subst result w'.
  unfold FetchAnalysis, bind, ret, cacheRepo_Find, analysisRepo_Find,
    cacheRepo_Set, logger_Error.
  split; [|split; [|split]].
  - intros c' analysis ->. by cbn.
  - intros c' cacheErr d' analysis c'' setErr -> Hd Hs. cbn.
    rewrite Hd. cbn. rewrite Hs.
    destruct setErr; cbn; by rewrite <- !app_assoc.
  - intros c' cacheErr d' err -> Hd. cbn. rewrite Hd. cbn.
    repeat split; [by eexists | by rewrite <- !app_assoc].
  - intros c' cacheErr ->. cbn.
    destruct (Find (analysisRepo w) analysisID) as [d' [analysis|err]] eqn:Hd;
      cbn.
    + destruct (Set_ c' analysis) as [c'' [e|]] eqn:Hs; cbn;
        (eexists; split; [by rewrite <- !app_assoc|]); cbn; auto.
    + (eexists; split; [by rewrite <- !app_assoc|]); cbn; auto.
Qed.

(** The calls of [StartAnalysis], for any pair of repositories. *)
Lemma StartAnalysis_calls :
  forall (w : world') (url : string) (options : AnalysisOptions),
    let result := fst (StartAnalysis url options w) in
    let w' := snd (StartAnalysis url options w) in
    (forall d' analysis c' setErr,
        Save (analysisRepo w) url options = (d', Ok analysis) ->
        Set_ (cacheRepo w) analysis = (c', setErr) ->
        result = Ok analysis
        /\ calls w' = calls w ++ [DurableSave url options; CacheSet analysis]
        /\ analysisRepo w' = d'
        /\ logged w'
           = logged w
             ++ match setErr with
                | Some e => [(e, "failed to save analysis to the cache")]
                | None => []
                end)
    /\ (forall d' err,
           Save (analysisRepo w) url options = (d', Err err) ->
           result = Err err
           /\ calls w' = calls w ++ [DurableSave url options]
           /\ cacheRepo w' = cacheRepo w).
Proof.
  intros w url options result w'. subst result w'.
  unfold StartAnalysis, bind, ret, analysisRepo_Save, cacheRepo_Set,
    logger_Error.
  split.
  - intros d' analysis c' setErr -> Hs. cbn. rewrite Hs.
    destruct setErr; cbn; rewrite <- ?app_assoc, ?app_nil_r; by cbn.
  - intros d' err ->. by cbn.
Qed.


End WithRepositories.

Lemma FetchAnalysis_cache_aside_witness :
  fst (FetchAnalysis "uuid-7" (Examples.fetch_world Examples.cache_up))
  = Ok Examples.stored_analysis
  /\ calls (snd (FetchAnalysis "uuid-7"
                   (Examples.fetch_world Examples.cache_up)))
     = [ CacheFind "uuid-7"; DurableFind "uuid-7";
         CacheSet Examples.stored_analysis ]
  /\ fst (FetchAnalysis "uuid-7" (Examples.fetch_world Examples.cache_away))
     = Ok Examples.stored_analysis.
Proof.
  pose proof (proj1 (proj2 (FetchAnalysis_cache_aside
                              (Examples.fetch_world Examples.cache_up)
                              "uuid-7"))
                _ _ _ _ _ _ eq_refl eq_refl eq_refl) as (H1 & H2 & _).
  pose proof (proj1 (proj2 (FetchAnalysis_cache_aside
                              (Examples.fetch_world Examples.cache_away)
                              "uuid-7"))
                _ _ _ _ _ _ eq_refl eq_refl eq_refl) as (H3 & _).
  repeat apply conj; assumption.
Defined.


Lemma event_of_status_injective (s1 s2 : AnalysisStatus) :
  event_of_status s1 = event_of_status s2 -> s1 = s2.
Proof. by destruct s1, s2. Qed.

(** What [PostgresRepository.Save] hands back when it succeeds: a record
    for the URL, in status requested, which is now a row of the table. *)
Lemma PostgresRepository_Save_requested (db db' : Storage) (url : string)
  (options : AnalysisOptions) (analysis : Analysis) :
  PostgresRepository_Save db url options = (db', Ok analysis) ->
  Status analysis = StatusRequested
  /\ a_URL analysis = url
  /\ rows db' !! ID analysis = Some analysis.
Proof.
  unfold PostgresRepository_Save.
  destruct (connection_error db); [done|]. cbn.
  destruct (statement_error db); [done|].
  intros [= <- <-]. cbn. by rewrite lookup_insert_eq.
Qed.

(** C4: [StartAnalysis] saves to the durable store first, and the
    record that store creates is in status requested; when the save
    succeeds that record is returned with a nil error whatever the cache
    write that follows answers (an error there is only logged); when the
    save fails its error is returned and the cache is not written. *)
Theorem StartAnalysis_durable_first :
  (forall (D C : Type) (repo : AnalysisRepository D)
          (cache : CacheRepository C) (w : world D C) (url : string)
          (options : AnalysisOptions),
      let result := fst (StartAnalysis url options w) in
      let w' := snd (StartAnalysis url options w) in
      (forall d' analysis c' setErr,
          Save (analysisRepo w) url options = (d', Ok analysis) ->
          Set_ (cacheRepo w) analysis = (c', setErr) ->
          result = Ok analysis
          /\ calls w'
             = calls w ++ [DurableSave url options; CacheSet analysis]
          /\ analysisRepo w' = d'
          /\ logged w'
             = logged w
               ++ match setErr with
                  | Some e => [(e, "failed to save analysis to the cache")]
                  | None => []
                  end)
      /\ (forall d' err,
             Save (analysisRepo w) url options = (d', Err err) ->
             result = Err err
             /\ calls w' = calls w ++ [DurableSave url options]
             /\ cacheRepo w' = cacheRepo w))
  /\ (forall (db db' : Storage) (url : string) (options : AnalysisOptions)
             (analysis : Analysis),
         PostgresRepository_Save db url options = (db', Ok analysis) ->
         Status analysis = StatusRequested
         /\ a_URL analysis = url
         /\ rows db' !! ID analysis = Some analysis).
Proof.
  split.
  - intros D C repo cache w url options. apply StartAnalysis_calls.
  - apply PostgresRepository_Save_requested.
Qed.

(** The durable write with the cache away: the record comes back, in
    status requested, and the cache error is in the log. *)
Lemma StartAnalysis_durable_first_witness :
  (exists analysis,
      fst (StartAnalysis "https://example.com" Examples.defaultOptions
             (Examples.start_world Examples.cache_away))
      = Ok analysis
      /\ Status analysis = StatusRequested)
  /\ logged (snd (StartAnalysis "https://example.com"
                    Examples.defaultOptions
                    (Examples.start_world Examples.cache_away)))
     = [ (Sentinel ErrCacheUnavailable,
          "failed to save analysis to the cache") ].
Proof.
  destruct StartAnalysis_durable_first as [Hcalls Hsave].
  pose proof (proj1 (Hcalls Storage KeydbClient _ _
                       (Examples.start_world Examples.cache_away)
                       "https://example.com" Examples.defaultOptions)
                _ _ _ _ eq_refl eq_refl) as (Hres & _ & _ & Hlog).
  split; [|exact Hlog].
  eexists. split; [exact Hres|].
  exact (proj1 (Hsave Examples.empty_storage _ "https://example.com"
                  Examples.defaultOptions _ eq_refl)).
Defined.

End ServiceFacts.

(** ** The link checker: the fan-out *)

Module FanoutFacts.
Import GoError Domain GoBreaker LinkChecker.

Lemma count_app (f : worker -> bool) (l1 l2 : list (Link * worker)) :
  count f (l1 ++ l2) = (count f l1 + count f l2)%nat.
Proof. unfold count. by rewrite List.filter_app, length_app. Qed.

Lemma count_cons (f : worker -> bool) (lw : Link * worker)
  (l : list (Link * worker)) :
  count f (lw :: l) = ((if f (snd lw) then 1 else 0) + count f l)%nat.
Proof. unfold count. simpl. by destruct (f (snd lw)). Qed.

Lemma count_at (f : worker -> bool) (l1 l2 : list (Link * worker))
  (link : Link) (w : worker) :
  count f (l1 ++ (link, w) :: l2)
  = (count f l1 + (if f w then 1 else 0) + count f l2)%nat.
Proof. rewrite count_app, count_cons. simpl. lia. Qed.

Lemma count_le (f g : worker -> bool) (ws : list (Link * worker)) :
  (forall w, f w = true -> g w = true) ->
  (count f ws <= count g ws)%nat.
Proof.
  intros Hfg. induction ws as [|[link w] ws IH]; [done|].
  rewrite !count_cons. simpl.
  destruct (f w) eqn:Hf; [rewrite (Hfg w Hf)|destruct (g w)]; lia.
Qed.

Lemma count_zero (f : worker -> bool) (ws : list (Link * worker)) :
  count f ws = 0%nat -> Forall (fun lw => f (snd lw) = false) ws.
Proof.
  induction ws as [|[link w] ws IH]; [constructor|].
  rewrite count_cons. simpl. destruct (f w) eqn:Hf; [lia|].
  intros H. constructor; [done | by apply IH].
Qed.

Lemma appended_at (l1 l2 : list (Link * worker)) (link : Link)
  (w : worker) :
  omap appended (l1 ++ (link, w) :: l2)
  = omap appended l1 ++ option_list (appended (link, w))
    ++ omap appended l2.
Proof.
  rewrite omap_app. f_equal. simpl.
  by destruct (appended (link, w)).
Qed.

Section Machine.

Variable MaxConcurrentChecks : nat.
Variable links : list Link.

Local Abbreviation inv := (invariant MaxConcurrentChecks links).
Local Abbreviation step' := (step MaxConcurrentChecks).

Lemma invariant_init : inv (init links).
Proof.
  constructor; simpl; try done; try lia.
Qed.

Ltac counts :=
  repeat match goal with
         | H : context [count _ (_ ++ (_, _) :: _)] |- _ =>
             rewrite count_at in H; cbn in H
         | |- context [count _ (_ ++ (_, _) :: _)] =>
             rewrite count_at; cbn
         end.

Lemma invariant_worker (p : main_pc) (td : list Link)
  (l1 l2 : list (Link * worker)) (link : Link) (w w' : worker)
  (s s' : shared) :
  wstep MaxConcurrentChecks link (w, s) (w', s') ->
  inv {| pc := p; todo := td; workers := l1 ++ (link, w) :: l2; sh := s |} ->
  inv {| pc := p; todo := td; workers := l1 ++ (link, w') :: l2; sh := s' |}.
Proof.
  intros Hstep [Hslots Hcap Hwg Hmu Hlinks Hloop Hret Hres].
  cbn [pc todo workers sh] in *.
  assert (Hlinks' : map fst (l1 ++ (link, w') :: l2) ++ td = links).
  { rewrite <- Hlinks. by rewrite !map_app. }
  assert (Hlive : live w = true).
  { by inversion Hstep. }
  assert (Hnot_returned : forall result, p <> Returned result).
  { intros result ->. destruct (Hret result eq_refl) as [_ Hz].
    rewrite Hz in Hwg. counts. rewrite Hlive in Hwg. lia. }
  rewrite appended_at in Hres.
  inversion Hstep; subst; cbn [semaphore wg mu inaccessibleLinks] in *;
    constructor; cbn [pc todo workers sh semaphore wg mu inaccessibleLinks];
    try done; try (intros result ->; by destruct (Hnot_returned result));
    try (rewrite appended_at; cbn [appended snd option_list app] in *);
    counts; try lia; try done.
  - (* mu.Lock() *)
    destruct (mu s); simpl in *; [done | lia].
  - (* append *)
    simpl in Hres |- *. rewrite Hres.
    etrans; [symmetry; apply Permutation_cons_append|].
    apply Permutation_middle.
  - (* mu.Unlock() *)
    destruct (mu s); simpl in *; lia.
Qed.

Lemma invariant_step (s s' : fanout) : step' s s' -> inv s -> inv s'.
Proof.
  intros Hstep Hinv. destruct Hstep.
  - destruct Hinv as [Hslots Hcap Hwg Hmu Hlinks Hloop Hret Hres].
    cbn [pc todo workers sh] in *.
    constructor; cbn [pc todo workers sh semaphore wg mu inaccessibleLinks].
    + rewrite count_app. cbn. lia.
    + done.
    + rewrite count_app. cbn. lia.
    + rewrite count_app. cbn. lia.
    + rewrite map_app. cbn. rewrite <- app_assoc. exact Hlinks.
    + done.
    + done.
    + rewrite omap_app. cbn. by rewrite app_nil_r.
  - destruct Hinv as [Hslots Hcap Hwg Hmu Hlinks Hloop Hret Hres].
    cbn [pc todo workers sh] in *. by constructor.
  - destruct Hinv as [Hslots Hcap Hwg Hmu Hlinks Hloop Hret Hres].
    cbn [pc todo workers sh] in *. constructor; cbn; try done.
    by intros result [= <-].
  - by eapply invariant_worker.
Qed.

Lemma invariant_reachable (s : fanout) :
  reachable MaxConcurrentChecks links s -> inv s.
Proof.
  unfold reachable. revert s.
  apply (rtc_ind_r (fun s => inv s) (init links)).
  - apply invariant_init.
  - intros s s' _ Hstep Hinv. by eapply invariant_step.
Qed.

End Machine.

(** C9: in every state [checkLinksWithConcurrency] can reach, at most
    [MaxConcurrentChecks] goroutines hold a slot of the semaphore, so at
    most that many probes are in flight; at most one goroutine holds the
    mutex, under which alone the slice of results grows; and when the
    call has returned, every link has had its goroutine, every goroutine
    has run to its end, and the result holds exactly the entries the
    probes produced. *)
Theorem checkLinksWithConcurrency_bounded :
  forall (MaxConcurrentChecks : nat) (links : list Link) (s : fanout),
    reachable MaxConcurrentChecks links s ->
    (count in_flight (workers s) <= MaxConcurrentChecks)%nat
    /\ (count holds_slot (workers s) <= MaxConcurrentChecks)%nat
    /\ (count holds_mutex (workers s) <= 1)%nat
    /\ (forall result,
           pc s = Returned result ->
           map fst (workers s) = links
           /\ Forall (fun lw => exited (snd lw) = true) (workers s)
           /\ result ≡ₚ omap outcome (workers s)).
Proof.
  intros cap links s Hreach.
  destruct (invariant_reachable cap links s Hreach)
    as [Hslots Hcap Hwg Hmu Hlinks Hloop Hret Hres].
  split; [|split; [|split]].
  - etrans; [apply (count_le in_flight holds_slot)|lia].
    by intros [].
  - lia.
  - destruct (mu (sh s)); lia.
  - intros result Hpc. destruct (Hret result Hpc) as [-> Hzero].
    assert (Hall : Forall (fun lw => exited (snd lw) = true) (workers s)).
    { rewrite Hzero in Hwg. symmetry in Hwg. apply count_zero in Hwg.
      eapply List.Forall_impl; [|exact Hwg].
      intros [link w]. unfold live. simpl. by destruct (exited w). }
    split; [|split; [done|]].
    + rewrite <- Hlinks, Hloop by congruence. symmetry. apply app_nil_r.
    + rewrite Hres. clear -Hall.
      induction Hall as [|[link w] ws Hw _ IH]; [done|].
      destruct w as [| | | | | | |r]; try done.
      destruct r; cbn; by rewrite IH.
Qed.

Lemma checkLinksWithConcurrency_bounded_witness :
  (count in_flight
     (workers (Examples.probing_state Examples.external_link))
   <= maxConcurrentLinkChecks)%nat.
Proof.
  refine (proj1 (checkLinksWithConcurrency_bounded maxConcurrentLinkChecks
                   [Examples.external_link]
                   (Examples.probing_state Examples.external_link) _)).
  unfold reachable.
  eapply rtc_l; [apply step_spawn|].
  eapply rtc_l;
    [apply (step_worker _ Spawning [] [] [] Examples.external_link
              Blocked Probing), w_acquire; simpl;
     unfold maxConcurrentLinkChecks; lia|].
  apply rtc_refl.
Defined.

End FanoutFacts.

(** ** More on links and forms *)

Module HTMLParserMoreFacts.
Import GoStrings GoError NetURL Dom Domain Regexp HTMLParser HTMLParserMore.

Lemma get_insert (m : gmap string bool) (k k' : string) :
  get (<[k := true]> m) k' = if decide (k = k') then true else get m k'.
Proof.
  unfold get. destruct (decide (k = k')) as [->|Hne].
  - by rewrite lookup_insert_eq.
  - by rewrite lookup_insert_ne.
Qed.

Lemma get_empty (k : string) : get ∅ k = false.
Proof. unfold get. by rewrite lookup_empty. Qed.

Section Links.

Variable url_Parse : string -> Result URL.
Variable url_ResolveReference : URL -> URL -> URL.
Variable url_String : URL -> string.

Local Abbreviation link_step' :=
  (link_step url_Parse url_ResolveReference url_String).
Local Abbreviation link_of' :=
  (link_of url_Parse url_ResolveReference url_String).

Local Abbreviation links_inv' :=
  (links_inv url_Parse url_ResolveReference url_String).

Lemma links_inv_weaken (base : URL) (visited : list Node) (s : Node)
  (acc : list Link * gmap string bool) :
  links_inv' base visited acc -> links_inv' base (visited ++ [s]) acc.
Proof.
  intros [Hnd Hseen Horigin Hlen]. constructor; try done.
  - intros l Hl. destruct (Horigin l Hl) as (s' & Hin & Hof).
    exists s'. split; [apply in_or_app; by left | done].
  - rewrite length_app. simpl. lia.
Qed.

Lemma link_step_inv (base : URL) (visited : list Node) (s : Node)
  (acc : list Link * gmap string bool) :
  links_inv' base visited acc ->
  links_inv' base (visited ++ [s]) (link_step' base acc s).
Proof.
  intros Hinv. pose proof (links_inv_weaken base visited s acc Hinv) as Hw.
  destruct acc as [links seen]. unfold link_step.
  destruct (Attr s "href") as [href|] eqn:Hattr; [|done].
  destruct (String.eqb_spec href "") as [|Hne]; [done|].
  destruct (url_Parse href) as [parsed|] eqn:Hparse; [|done].
  destruct (get seen (url_String (url_ResolveReference base parsed)))
    eqn:Hget; [done|].
  destruct Hw as [Hnd Hseen Horigin Hlen]. simpl in *.
  assert (Hseen' : forall l, In l links ->
            get (<[url_String (url_ResolveReference base parsed) := true]>
                   seen) (link_URL l) = true).
  { intros l Hl. rewrite get_insert. case_decide; [done | by apply Hseen]. }
  match goal with
  | |- context [if ?c then _ else _] => destruct c eqn:Hskip
  end.
  - by constructor.
  - repeat (apply orb_false_elim in Hskip as [Hskip ?]).
    constructor; simpl.
    + rewrite map_app. apply List.NoDup_app; [done | | ].
      * simpl. apply List.NoDup_cons; [by intros [] | apply List.NoDup_nil].
      * intros u Hu [<-|[]]. apply List.in_map_iff in Hu as (l & Hurl & Hl).
        specialize (Hseen l Hl). simpl in Hurl. congruence.
    + intros l [Hl|[<-|[]]]%in_app_or; [by apply Hseen'|].
      simpl. rewrite get_insert. by case_decide.
    + intros l [Hl|[<-|[]]]%in_app_or; [by apply Horigin|].
      exists s. split; [apply in_or_app; right; by left|].
      exists href, parsed. simpl. repeat apply conj; try done.
      * unfold skipped_href.
        repeat match goal with H : _ = false |- _ => rewrite H; clear H end.
        done.
      * intros Heq. rewrite Heq in Hskip. done.
    + rewrite !length_app. simpl in *.
      destruct Hinv as [_ _ _ Hlen']. simpl in Hlen'. lia.
Qed.

Lemma link_fold_inv (base : URL) (todo visited : list Node)
  (acc : list Link * gmap string bool) :
  links_inv' base visited acc ->
  links_inv' base (visited ++ todo) (fold_left (link_step' base) todo acc).
Proof.
  revert visited acc. induction todo as [|s todo IH]; intros visited acc Hinv.
  - by rewrite app_nil_r.
  - simpl. replace (visited ++ s :: todo) with ((visited ++ [s]) ++ todo)
      by (by rewrite <- app_assoc).
    apply IH. by apply link_step_inv.
Qed.

(** X1: when the base URL parses, the links [ExtractLinks] returns have
    pairwise different URLs, are no more than the elements visited, and
    each is made of one visited element whose reference is not empty, not
    a fragment and not a javascript, mailto or tel reference, resolved
    against the base and classified by comparing hosts; when the base URL
    does not parse, its error is returned. *)
Theorem ExtractLinks_links :
  forall (doc : Document) (baseURL : string),
    (forall base links,
        url_Parse baseURL = Ok base ->
        ExtractLinks url_Parse url_ResolveReference url_String doc baseURL
        = Ok links ->
        List.NoDup (map link_URL links)
        /\ (length links
            <= length (doc_Find doc [SelTagHasAttr "p" "href"]))%nat
        /\ (forall l, In l links ->
              exists s, In s (doc_Find doc [SelTagHasAttr "p" "href"])
                        /\ link_of' base s l))
    /\ (forall err,
           url_Parse baseURL = Err err ->
           ExtractLinks url_Parse url_ResolveReference url_String doc baseURL
           = Err err).
Proof.
  intros doc baseURL. split.
  - intros base links Hbase. unfold ExtractLinks. rewrite Hbase.
    pose proof (link_fold_inv base
                  (doc_Find doc [SelTagHasAttr "p" "href"]) [] ([], ∅))
      as Hinv.
    destruct (fold_left _ _ _) as [links' seen] eqn:Hfold.
    intros [= <-].
    destruct Hinv as [Hnd _ Horigin Hlen].
    { constructor; simpl; try done. apply List.NoDup_nil. }
    simpl in *. done.
  - intros err Herr. unfold ExtractLinks. by rewrite Herr.
Qed.

End Links.

Section Forms.

Variable url_Parse : string -> Result URL.
Variable url_ResolveReference : URL -> URL -> URL.
Variable url_String : URL -> string.

Local Abbreviation form_step' :=
  (form_step url_Parse url_ResolveReference url_String).
Local Abbreviation login_form' :=
  (login_form_of url_Parse url_ResolveReference url_String).

Lemma form_fold (base : URL) (forms : list Node)
  (acc : list LoginForm * Z) :
  fold_left (form_step' base) forms acc
  = (fst acc
     ++ map (login_form' base)
          (List.filter (fun form => isLikelyLoginForm (form_fields form) form)
             forms),
     snd acc + Z.of_nat (length forms)).
Proof.
  revert acc. induction forms as [|form forms IH]; intros [lfs n].
  - simpl. rewrite app_nil_r. f_equal. lia.
  - cbn [fold_left]. rewrite IH. unfold form_step.
    cbn [List.filter length].
    destruct (isLikelyLoginForm (form_fields form) form); cbn [fst snd map].
    + rewrite <- app_assoc. f_equal. lia.
    + f_equal. lia.
Qed.

(** X2: when the base URL parses, [ExtractForms] counts every form
    element, lists exactly the forms the heuristic flags, in document
    order, and reports their number, which is at most the total; when
    the base URL does not parse, it reports no form at all. *)
Theorem ExtractForms_shape :
  forall (doc : Document) (baseURL : string),
    (forall base,
        url_Parse baseURL = Ok base ->
        let analysis :=
          ExtractForms url_Parse url_ResolveReference url_String doc
            baseURL in
        TotalCount analysis
        = Z.of_nat (length (doc_Find doc [SelTag "form"]))
        /\ LoginFormDetails analysis
           = map (login_form' base) (flagged_forms doc)
        /\ LoginFormsDetected analysis
           = Z.of_nat (length (flagged_forms doc))
        /\ 0 <= LoginFormsDetected analysis <= TotalCount analysis)
    /\ (forall err,
           url_Parse baseURL = Err err ->
           ExtractForms url_Parse url_ResolveReference url_String doc baseURL
           = {| TotalCount := 0; LoginFormsDetected := 0;
                LoginFormDetails := [] |}).
Proof.
  intros doc baseURL. split.
  - intros base Hbase. unfold ExtractForms. rewrite Hbase.
    rewrite form_fold. cbn [fst snd app TotalCount LoginFormsDetected
                            LoginFormDetails].
    fold (flagged_forms doc). rewrite length_map.
    repeat apply conj; try done; try lia.
    unfold flagged_forms.
    pose proof (List.filter_length_le
                  (fun form => isLikelyLoginForm (form_fields form) form)
                  (doc_Find doc [SelTag "form"])). lia.
  - intros err Herr. unfold ExtractForms. by rewrite Herr.
Qed.

End Forms.

(** What the loop of [form_fields] keeps true of [fields] and
    [fieldNames] after the elements [visited]. *)
Lemma field_fold_inv (todo visited : list Node)
  (acc : list string * gmap string bool) :
  List.NoDup (fst acc) ->
  (forall name, get (snd acc) name = true <-> In name (fst acc)) ->
  (forall name, In name (fst acc) <->
                name <> "" /\ exists field, In field visited
                                            /\ AttrOr field "name" "" = name) ->
  let acc' := fold_left field_step todo acc in
  List.NoDup (fst acc')
  /\ (forall name, In name (fst acc') <->
                   name <> "" /\ exists field, In field (visited ++ todo)
                                               /\ AttrOr field "name" "" = name).
Proof.
  revert visited acc. induction todo as [|field todo IH];
    intros visited [fields names] Hnd Hnames Hin; cbn [fst snd] in *.
  - rewrite app_nil_r. by split.
  - cbn [fold_left].
    replace (visited ++ field :: todo) with ((visited ++ [field]) ++ todo)
      by (by rewrite <- app_assoc).
    apply IH; unfold field_step;
      destruct (String.eqb_spec (AttrOr field "name" "") "") as [Hempty|Hne];
      cbn [negb andb fst snd]; try done.
    + destruct (get names (AttrOr field "name" "")) eqn:Hget;
        cbn [negb fst snd]; [done|].
      apply List.NoDup_app; [done | | ].
      * apply List.NoDup_cons; [by intros [] | apply List.NoDup_nil].
      * intros name Hname [<-|[]]. apply Hnames in Hname. congruence.
    + destruct (get names (AttrOr field "name" "")) eqn:Hget;
        cbn [negb fst snd]; [done|].
      intros name. rewrite get_insert, List.in_app_iff. case_decide.
      * subst. split; [intros _; right; by left | done].
      * rewrite Hnames. split; [tauto|]. intros [?|[?|[]]]; done.
    + intros name. rewrite Hin. split.
      * intros (Hn & f & Hf & Hattr). split; [done|].
        exists f. split; [apply in_or_app; by left | done].
      * intros (Hn & f & [Hf|[<-|[]]]%in_app_or & Hattr);
          [split; [done|]; by exists f | congruence].
    + destruct (get names (AttrOr field "name" "")) eqn:Hget;
        cbn [negb fst snd].
      * intros name. rewrite Hin. split.
        -- intros (Hn & f & Hf & Hattr). split; [done|].
           exists f. split; [apply in_or_app; by left | done].
        -- intros (Hn & f & [Hf|[<-|[]]]%in_app_or & Hattr).
           ++ split; [done|]. by exists f.
           ++ apply Hin, Hnames. by rewrite <- Hattr.
      * intros name. rewrite List.in_app_iff, Hin. split.
        -- intros [(Hn & f & Hf & Hattr)|[<-|[]]].
           ++ split; [done|]. exists f.
              split; [apply in_or_app; by left | done].
           ++ split; [done|]. exists field.
              split; [apply in_or_app; right; by left | done].
        -- intros (Hn & f & [Hf|[<-|[]]]%in_app_or & Hattr).
           ++ left. split; [done|]. by exists f.
           ++ right. by left.
Qed.

(** X3: the field names of a form are the non-empty [name] attributes of
    the [input], [select] and [textarea] elements below it, each name
    once. *)
Theorem form_fields_names :
  forall (form : Node),
    List.NoDup (form_fields form)
    /\ (forall name,
           In name (form_fields form) <->
           name <> ""
           /\ exists field,
               In field (Find form [SelTag "input"; SelTag "select";
                                    SelTag "textarea"])
               /\ AttrOr field "name" "" = name).
Proof.
  intros form. unfold form_fields.
  apply (field_fold_inv _ [] ([], ∅)); cbn [fst snd].
  - apply List.NoDup_nil.
  - intros name. rewrite get_empty. split; [done | by intros []].
  - intros name. split; [by intros [] | by intros (_ & f & [] & _)].
Qed.







(** *** The title *)

Lemma collapse_spaces (in_run : bool) (s : list ascii) (c : ascii) :
  In c (collapse in_run s) -> is_space c = true -> c = " "%char.
Proof.
  revert in_run. induction s as [|a s IH]; intros in_run; simpl; [done|].
  destruct (is_space a) eqn:Ha.
  - destruct in_run; [apply IH|]. intros [<-|Hin]; [done | by eapply IH].
  - intros [<-|Hin]; [congruence | by eapply IH].
Qed.

Lemma collapse_in_run_head (s : list ascii) (c : ascii) (r : list ascii) :
  collapse true s = c :: r -> is_space c = false.
Proof.
  induction s as [|a s IH]; simpl; [done|].
  destruct (is_space a) eqn:Ha; [done|]. by intros [= <- _].
Qed.

Lemma collapse_no_double (in_run : bool) (s l1 l2 : list ascii) :
  collapse in_run s <> l1 ++ " "%char :: " "%char :: l2.
Proof.
  revert in_run l1. induction s as [|a s IH]; intros in_run l1; simpl.
  - by destruct l1.
  - destruct (is_space a) eqn:Ha.
    + destruct in_run; [apply IH|].
      destruct l1 as [|x l1]; simpl.
      * intros [= H]. by apply collapse_in_run_head in H.
      * intros [= _ H]. by apply IH in H.
    + destruct l1 as [|x l1]; simpl.
      * intros [= -> _]. done.
      * intros [= _ H]. by apply IH in H.
Qed.

Lemma collapse_last (in_run : bool) (r : list ascii) (c : ascii) :
  is_space c = false ->
  collapse in_run (r ++ [c]) = collapse in_run r ++ [c].
Proof.
  intros Hc. revert in_run. induction r as [|a r IH]; intros in_run; simpl.
  - by rewrite Hc.
  - destruct (is_space a); [destruct in_run|]; by rewrite IH.
Qed.

Lemma is_space_cases (c : ascii) :
  is_space c = true ->
  c = x 9 \/ c = x 10 \/ c = x 12 \/ c = x 13 \/ c = x 32.
Proof.
  unfold is_space. cbn [existsb].
  repeat match goal with
         | |- context [Ascii.eqb c ?a] =>
             destruct (Ascii.eqb_spec c a) as [->|?]; [tauto|]
         end.
  done.
Qed.

Lemma strip_any_app_Some (runes : list (list ascii)) (s b : list ascii) :
  strip_any runes s <> None -> strip_any runes (s ++ b) <> None.
Proof.
  induction runes as [|w runes IH]; simpl; [done|].
  destruct (strip w s) as [s'|] eqn:Hs.
  - intros _. by rewrite (StringFacts.strip_app _ _ b _ Hs).
  - intros H. destruct (strip w (s ++ b)); [done | by apply IH].
Qed.

(** What [strings.TrimSpace] leaves neither begins nor ends with a
    white-space byte. *)
Lemma TrimSpaceBytes_head (s : list ascii) (c : ascii) (r : list ascii) :
  TrimSpaceBytes s = c :: r -> is_space c = false.
Proof.
  intros Ht. destruct (is_space c) eqn:Hc; [|done]. exfalso.
  unfold TrimSpaceBytes in Ht.
  destruct (StringFacts.trim_right_prefix space_runes
              (trim_left space_runes s)) as (b & Hb).
  pose proof (StringFacts.trim_left_space_done s) as Hdone.
  rewrite Hb, Ht in Hdone. revert Hdone.
  change ((c :: r) ++ b) with ([c] ++ (r ++ b)).
  apply strip_any_app_Some.
  destruct (is_space_cases c Hc) as [H|[H|[H|[H|H]]]]; subst c;
    by vm_compute.
Qed.

Lemma TrimSpaceBytes_last (s r : list ascii) (c : ascii) :
  TrimSpaceBytes s = r ++ [c] -> is_space c = false.
Proof.
  intros Ht. destruct (is_space c) eqn:Hc; [|done]. exfalso.
  unfold TrimSpaceBytes, trim_right in Ht.
  assert (Hrev : trim_left (map (@rev ascii) space_runes)
                   (rev (trim_left space_runes s)) = c :: rev r).
  { apply (f_equal (@rev ascii)) in Ht. rewrite rev_involutive in Ht.
    rewrite Ht, rev_app_distr. done. }
  assert (Hdone : strip_any (map (@rev ascii) space_runes)
                    (trim_left (map (@rev ascii) space_runes)
                       (rev (trim_left space_runes s))) = None).
  { apply StringFacts.trim_left_fuel_done; [|done].
    repeat constructor; discriminate. }
  rewrite Hrev in Hdone. revert Hdone.
  change (c :: rev r) with ([c] ++ rev r).
  apply strip_any_app_Some.
  destruct (is_space_cases c Hc) as [H|[H|[H|[H|H]]]]; subst c;
    by vm_compute.
Qed.

(** X6: the extracted title holds no tab, line feed, form feed or
    carriage return and no two spaces in a row, and neither begins nor
    ends with a space; a page without a [title] element has the empty
    title. *)
Theorem ExtractTitle_clean :
  forall (doc : Document),
    let title := ExtractTitle_bytes doc in
    (forall c, In c title -> is_space c = true -> c = " "%char)
    /\ (forall l1 l2, title <> l1 ++ " "%char :: " "%char :: l2)
    /\ (forall c r, title = c :: r -> is_space c = false)
    /\ (forall r c, title = r ++ [c] -> is_space c = false)
    /\ (doc_Find doc [SelTag "title"] = [] -> ExtractTitle doc = "").
Proof.
  intros doc title. subst title. unfold ExtractTitle, ExtractTitle_bytes.
  remember (TrimSpaceBytes
              (bytes_of (First_Text (doc_Find doc [SelTag "title"]))))
    as t eqn:Et.
  split; [|split; [|split; [|split]]].
  - intros c. apply collapse_spaces.
  - intros l1 l2. apply collapse_no_double.
  - intros c r. destruct t as [|a t']; [done|]. symmetry in Et.
    apply TrimSpaceBytes_head in Et. simpl. rewrite Et. by intros [= <- _].
  - intros r c. destruct t as [|a t'] using rev_ind.
    + simpl. by destruct r.
    + clear IHt'. symmetry in Et. apply TrimSpaceBytes_last in Et.
      rewrite collapse_last by done.
      intros [_ <-]%app_inj_tail. done.
  - intros Hnone. subst t. by rewrite Hnone.
Qed.

(** *** The page of [MoreExamples], evaluated *)

Lemma ExtractLinks_links_witness :
  exists links,
    ExtractLinks Parse (fun _ ref => ref) MoreExamples.url_text
      MoreExamples.page_doc "https://example.com"
    = Ok links
    /\ List.NoDup (map link_URL links)
    /\ (length links <= 4)%nat.
Proof.
  eexists. split; [reflexivity|].
  destruct (proj1 (ExtractLinks_links Parse (fun _ ref => ref)
                     MoreExamples.url_text MoreExamples.page_doc
                     "https://example.com") _ _ eq_refl eq_refl)
    as (Hnd & Hlen & _).
  split; [exact Hnd | exact Hlen].
Defined.

Lemma ExtractForms_shape_witness :
  TotalCount (ExtractForms Parse (fun _ ref => ref) MoreExamples.url_text
                MoreExamples.page_doc "https://example.com") = 2
  /\ LoginFormsDetected
       (ExtractForms Parse (fun _ ref => ref) MoreExamples.url_text
          MoreExamples.page_doc "https://example.com") = 1.
Proof.
  destruct (proj1 (ExtractForms_shape Parse (fun _ ref => ref)
                     MoreExamples.url_text MoreExamples.page_doc
                     "https://example.com") _ eq_refl)
    as (Htotal & _ & Hdetected & _).
  split; [exact Htotal | exact Hdetected].
Defined.

Lemma form_fields_names_witness :
  List.NoDup (form_fields MoreExamples.sign_in_form)
  /\ In "Username" (form_fields MoreExamples.sign_in_form).
Proof.
  destruct (form_fields_names MoreExamples.sign_in_form) as [Hnd Hin].
  split; [exact Hnd|]. apply Hin. split; [done|].
  exists (Element "input" [("name", "Username")] []).
  split; [simpl; auto | reflexivity].
Defined.



Lemma ExtractTitle_clean_witness :
  ExtractTitle Examples.password_doc = "".
Proof.
  exact (proj2 (proj2 (proj2 (proj2
           (ExtractTitle_clean Examples.password_doc)))) eq_refl).
Defined.

End HTMLParserMoreFacts.

(** ** More on the link checker *)

Module LinkCheckerMoreFacts.
Import GoStrings GoError NetURL Domain GoBreaker LinkChecker LinkCheckerMore.
Import FanoutFacts.

Section Filter.

Variable url_Parse : string -> Result URL.

Local Abbreviation filter_step' := (filter_step url_Parse).

Local Abbreviation parses := (parses url_Parse).

Lemma filter_fold_inv (todo visited : list Link)
  (acc : list Link * gmap string bool) :
  fst acc `sublist_of` visited ->
  List.NoDup (map link_URL (fst acc)) ->
  (forall l, In l (fst acc) ->
             link_Type l = LinkTypeExternal /\ parses (link_URL l)) ->
  (forall u, get (snd acc) u = true <->
             exists l, In l visited /\ link_Type l = LinkTypeExternal
                       /\ link_URL l = u) ->
  (forall u, get (snd acc) u = true -> parses u ->
             In u (map link_URL (fst acc))) ->
  let acc' := fold_left filter_step' todo acc in
  fst acc' `sublist_of` visited ++ todo
  /\ List.NoDup (map link_URL (fst acc'))
  /\ (forall l, In l (fst acc') ->
                link_Type l = LinkTypeExternal /\ parses (link_URL l))
  /\ (forall l, In l (visited ++ todo) ->
                link_Type l = LinkTypeExternal -> parses (link_URL l) ->
                In (link_URL l) (map link_URL (fst acc'))).
Proof.
  revert visited acc. induction todo as [|link todo IH];
    intros visited [ext seen] Hsub Hnd Hext Hseen Hfull; cbn [fst snd] in *.
  - rewrite app_nil_r. repeat split; try done; try (by apply Hext).
    intros l Hl Hty Hp. apply Hfull; [|done]. apply Hseen. by exists l.
  - cbn [fold_left].
    replace (visited ++ link :: todo) with ((visited ++ [link]) ++ todo)
      by (by rewrite <- app_assoc).
    assert (Hseen_old : forall u,
              get seen u = true ->
              exists l, In l (visited ++ [link])
                        /\ link_Type l = LinkTypeExternal /\ link_URL l = u).
    { intros u (l & Hl & Hty & Hu)%Hseen. exists l.
      split; [apply in_or_app; by left | done]. }
    assert (Hin_old : forall l, In l visited -> In l (visited ++ [link])).
    { intros l Hl. apply in_or_app. by left. }
    assert (Hin_new : In link (visited ++ [link])).
    { apply in_or_app. right. by left. }
    unfold filter_step.
    destruct (link_Type link) eqn:Hty.
    { (* an internal link *)
      apply IH; cbn [fst snd]; try done.
      - by apply sublist_inserts_r.
      - intros u. split; [apply Hseen_old|].
        intros (l & [Hl|[<-|[]]]%in_app_or & Hlty & Hu); [|congruence].
        apply Hseen. by exists l. }
    destruct (get seen (link_URL link)) eqn:Hget.
    { (* a URL seen before *)
      apply IH; cbn [fst snd]; try done.
      - by apply sublist_inserts_r.
      - intros u. split; [apply Hseen_old|].
        intros (l & [Hl|[<-|[]]]%in_app_or & Hlty & <-); [|done].
        apply Hseen. by exists l. }
    assert (Hseen' : forall u,
              get (<[link_URL link := true]> seen) u = true <->
              exists l, In l (visited ++ [link])
                        /\ link_Type l = LinkTypeExternal /\ link_URL l = u).
    { intros u. rewrite HTMLParserMoreFacts.get_insert. case_decide as Hu.
      - split; [|done]. intros _. by exists link.
      - split; [apply Hseen_old|].
        intros (l & [Hl|[<-|[]]]%in_app_or & Hlty & Hlu); [|done].
        apply Hseen. by exists l. }
    destruct (url_Parse (link_URL link)) as [url|err] eqn:Hparse.
    { (* a new URL that parses *)
      apply IH; cbn [fst snd]; try done.
      - by apply sublist_app.
      - rewrite map_app. apply List.NoDup_app; [done | | ].
        + apply List.NoDup_cons; [by intros [] | apply List.NoDup_nil].
        + intros u Hu [<-|[]].
          apply List.in_map_iff in Hu as (l & Hurl & Hl).
          assert (get seen (link_URL link) = true); [|congruence].
          rewrite <- Hurl. apply Hseen. exists l.
          destruct (Hext l Hl) as [? _].
          split; [|done]. apply list_elem_of_In.
          eapply elem_of_sublist; [|exact Hsub]. by apply list_elem_of_In.
      - intros l [Hl|[<-|[]]]%in_app_or; [by apply Hext|].
        split; [done | by exists url].
      - intros u. rewrite HTMLParserMoreFacts.get_insert, map_app.
        case_decide as Hu.
        + subst u. intros _ _. apply in_or_app. right. by left.
        + intros Hg Hp. apply in_or_app. left. by apply Hfull. }
    (* a new URL that does not parse *)
    apply IH; cbn [fst snd]; try done.
    + by apply sublist_inserts_r.
    + intros u. rewrite HTMLParserMoreFacts.get_insert. case_decide as Hu.
      * subst u. intros _ (url & Hp). congruence.
      * by apply Hfull.
Qed.

Lemma filterExternalLinks_spec (links : list Link) :
  let externalLinks := filterExternalLinks url_Parse links in
  externalLinks `sublist_of` links
  /\ List.NoDup (map link_URL externalLinks)
  /\ (forall l, In l externalLinks ->
                link_Type l = LinkTypeExternal /\ parses (link_URL l))
  /\ (forall l, In l links ->
                link_Type l = LinkTypeExternal -> parses (link_URL l) ->
                In (link_URL l) (map link_URL externalLinks)).
Proof.
  unfold filterExternalLinks.
  apply (filter_fold_inv links [] ([], ∅)); cbn [fst snd].
  - apply sublist_nil_l.
  - apply List.NoDup_nil.
  - by intros l [].
  - intros u. rewrite HTMLParserMoreFacts.get_empty.
    split; [done | by intros (l & [] & _)].
  - intros u. by rewrite HTMLParserMoreFacts.get_empty.
Qed.

(** X7: [filterExternalLinks] keeps, in their order, the first external
    link of every URL that parses: what it returns is a subsequence of
    its input, holds external links only, no URL twice, and every
    external URL of the input that parses is there. *)
Theorem filterExternalLinks_first_external :
  forall (links : list Link),
    let externalLinks := filterExternalLinks url_Parse links in
    externalLinks `sublist_of` links
    /\ List.NoDup (map link_URL externalLinks)
    /\ (forall l, In l externalLinks ->
                  link_Type l = LinkTypeExternal /\ parses (link_URL l))
    /\ (forall l, In l links ->
                  link_Type l = LinkTypeExternal -> parses (link_URL l) ->
                  In (link_URL l) (map link_URL externalLinks)).
Proof. exact filterExternalLinks_spec. Qed.

(** X8: with a bound that is not negative, the links to check are the
    first [MaxLinksToCheck] of the filtered ones, so never more than the
    bound; with a negative bound the slicing panics, whatever the
    links. *)
Theorem links_to_check_bound :
  forall (MaxLinksToCheck : Z) (links : list Link),
    (0 <= MaxLinksToCheck ->
     exists to_check,
       links_to_check url_Parse MaxLinksToCheck links = Some to_check
       /\ to_check
          = take (Z.to_nat MaxLinksToCheck)
              (filterExternalLinks url_Parse links)
       /\ Z.of_nat (length to_check) <= MaxLinksToCheck
       /\ to_check `sublist_of` links)
    /\ (MaxLinksToCheck < 0 ->
        links_to_check url_Parse MaxLinksToCheck links = None).
Proof.
  intros Max links. unfold links_to_check.
  destruct (filterExternalLinks_spec links) as (Hsub & _).
  set (ext := filterExternalLinks url_Parse links) in *.
  split.
  - intros Hmax.
    destruct (Z.of_nat (length ext) >? Max) eqn:Hgt.
    + assert (Hlt : (Max <? 0) = false) by lia. rewrite Hlt.
      eexists. repeat apply conj; try done.
      * rewrite length_take. lia.
      * etrans; [apply sublist_take | done].
    + exists ext. repeat apply conj; try done; [|lia].
      symmetry. apply take_ge. lia.
  - intros Hneg.
    assert (Hgt : (Z.of_nat (length ext) >? Max) = true).
    { apply Z.gtb_lt. lia. }
    assert (Hlt : (Max <? 0) = true) by (apply Z.ltb_lt; lia).
    by rewrite Hgt, Hlt.
Qed.

End Filter.

(** *** What the fan-out returns *)

Lemma checkSingleLink_entry (cb : CircuitBreaker) (client : Resty.Client)
  (link : Link) (e : InaccessibleLink) :
  checkSingleLink cb client link = Some e ->
  il_URL e = link_URL link /\ failing_status e.
Proof.
  unfold checkSingleLink, failing_status.
  destruct (Execute cb _) as [r|err].
  - destruct (lcr_StatusCode r >=? 400) eqn:Hge; [|done].
    intros [= <-]. cbn. split; [done | right; lia].
  - destruct (is_ErrOpenState err); intros [= <-]; cbn;
      (split; [done|]); [right | left]; lia.
Qed.

Lemma own_entry_reachable (cap : nat) (links : list Link) (s : fanout) :
  reachable cap links s -> Forall own_entry (workers s).
Proof.
  unfold reachable. revert s.
  apply (rtc_ind_r (fun s => Forall own_entry (workers s)) (init links)).
  - constructor.
  - intros s s' _ Hstep Hinv. destruct Hstep; cbn [workers] in *; try done.
    + apply Forall_app. split; [done|]. by repeat constructor.
    + apply Forall_app in Hinv as [H1 [Hw H2]%Forall_cons].
      apply Forall_app. split; [done|]. apply Forall_cons. split; [|done].
      unfold own_entry in *. cbn [fst snd] in *.
      match goal with H : wstep _ _ _ _ |- _ => inversion H; subst end;
        cbn [carried] in *; try done.
      intros e He. by eapply checkSingleLink_entry.
Qed.

Lemma appended_carried (lw : Link * worker) (e : InaccessibleLink) :
  appended lw = Some e -> carried (snd lw) = Some e.
Proof. destruct lw as [link []]; by cbn. Qed.

Lemma appended_urls (ws : list (Link * worker)) :
  Forall own_entry ws ->
  map il_URL (omap appended ws) `sublist_of` map link_URL (map fst ws).
Proof.
  induction 1 as [|[link w] ws Hw _ IH]; [constructor|].
  change (omap appended ((link, w) :: ws))
    with (match appended (link, w) with
          | Some e => e :: omap appended ws
          | None => omap appended ws
          end).
  change (map link_URL (map fst ((link, w) :: ws)))
    with (link_URL link :: map link_URL (map fst ws)).
  destruct (appended (link, w)) as [e|] eqn:He.
  - change (map il_URL (e :: omap appended ws))
      with (il_URL e :: map il_URL (omap appended ws)).
    rewrite (proj1 (Hw e (appended_carried _ _ He))). cbn [fst].
    by apply sublist_skip.
  - by apply sublist_cons.
Qed.

Lemma appended_status (ws : list (Link * worker)) :
  Forall own_entry ws -> Forall failing_status (omap appended ws).
Proof.
  induction 1 as [|[link w] ws Hw _ IH]; [constructor|].
  change (omap appended ((link, w) :: ws))
    with (match appended (link, w) with
          | Some e => e :: omap appended ws
          | None => omap appended ws
          end).
  destruct (appended (link, w)) as [e|] eqn:He; [|done].
  constructor; [|done]. exact (proj2 (Hw e (appended_carried _ _ He))).
Qed.

(** On return the result is, up to order, a selection of entries, one
    for some of the links, each under the URL of its link. *)
Lemma returned_result (cap : nat) (links : list Link) (s : fanout)
  (result : list InaccessibleLink) :
  reachable cap links s -> pc s = Returned result ->
  exists entries,
    result ≡ₚ entries
    /\ map il_URL entries `sublist_of` map link_URL links
    /\ Forall failing_status entries.
Proof.
  intros Hreach Hpc.
  destruct (invariant_reachable cap links s Hreach)
    as [_ _ _ _ Hlinks Hloop Hret Hres].
  destruct (Hret result Hpc) as [-> _].
  pose proof (own_entry_reachable cap links s Hreach) as Hown.
  exists (omap appended (workers s)). split; [done|]. split.
  - rewrite <- Hlinks, Hloop by congruence. rewrite app_nil_r.
    by apply appended_urls.
  - by apply appended_status.
Qed.

Section CheckAccessibility.

Variable url_Parse : string -> Result URL.

Local Abbreviation parses := (parses url_Parse).

(** X9: whatever [CheckAccessibility] returns, every entry is under the
    URL of an external link of the input whose URL parses and has status
    0 or a status from 400 on, no URL has two entries, and with a bound
    that is not negative there are at most [MaxLinksToCheck] entries; for
    no links the result is empty. *)
Theorem CheckAccessibility_result :
  forall (MaxLinksToCheck : Z) (MaxConcurrentChecks : nat)
         (links : list Link) (result : list InaccessibleLink),
    CheckAccessibility_returns url_Parse MaxLinksToCheck
      MaxConcurrentChecks links result ->
    (forall e, In e result ->
               failing_status e
               /\ exists l, In l links /\ link_Type l = LinkTypeExternal
                            /\ parses (link_URL l)
                            /\ link_URL l = il_URL e)
    /\ List.NoDup (map il_URL result)
    /\ (0 <= MaxLinksToCheck ->
        Z.of_nat (length result) <= MaxLinksToCheck)
    /\ (length result <= length links)%nat
    /\ (links = [] -> result = []).
Proof.
  intros MaxL cap links result Hret.
  destruct links as [|link0 links0].
  { simpl in Hret. subst result.
    split; [by intros ? []|]. split; [apply List.NoDup_nil|].
    split; [intros ?; simpl; lia|]. split; [simpl; lia | done]. }
  set (links := link0 :: links0) in *.
  destruct Hret as (to_check & s & Hcheck & Hreach & Hpc).
  destruct (returned_result cap to_check s result Hreach Hpc)
    as (entries & Hperm & Hsub & Hstatus).
  destruct (filterExternalLinks_spec url_Parse links)
    as (Hfsub & Hfnd & Hfext & _).
  assert (Htake : to_check `sublist_of` filterExternalLinks url_Parse links).
  { unfold links_to_check in Hcheck.
    destruct (_ >? _); [destruct (_ <? _); [done|]|];
      injection Hcheck as <-; [apply sublist_take | done]. }
  assert (Hurls : map il_URL entries
                  `sublist_of`
                  map link_URL (filterExternalLinks url_Parse links)).
  { etrans; [exact Hsub|]. exact (fmap_sublist link_URL _ _ Htake). }
  split; [|split; [|split; [|split]]].
  - intros e He. eapply Permutation_in in He; [|exact Hperm].
    split; [by apply (proj1 (List.Forall_forall _ _) Hstatus)|].
    assert (Hu : il_URL e
                 ∈ map link_URL (filterExternalLinks url_Parse links)).
    { eapply elem_of_sublist; [|exact Hurls].
      apply list_elem_of_In, in_map. done. }
    apply list_elem_of_In, List.in_map_iff in Hu as (l & Hlu & Hl).
    exists l. destruct (Hfext l Hl) as [Hty Hp].
    repeat apply conj; try done.
    apply list_elem_of_In. eapply elem_of_sublist; [|exact Hfsub].
    by apply list_elem_of_In.
  - apply NoDup_ListNoDup. rewrite Hperm.
    eapply sublist_NoDup; [by apply NoDup_ListNoDup | exact Hurls].
  - intros Hmax.
    assert (Hlen : Z.of_nat (length to_check) <= MaxL).
    { unfold links_to_check in Hcheck.
      destruct (_ >? _) eqn:Hgt; [destruct (_ <? _); [done|]|];
        injection Hcheck as <-; [rewrite length_take|]; lia. }
    rewrite (Permutation_length Hperm).
    apply sublist_length in Hsub. rewrite !length_map in Hsub. lia.
  - rewrite (Permutation_length Hperm).
    apply sublist_length in Hurls, Hfsub. rewrite !length_map in Hurls.
    lia.
  - done.
Qed.

End CheckAccessibility.

(** *** Progress and termination of the fan-out *)

Lemma pick_worker (f : worker -> bool) (ws : list (Link * worker)) :
  (exists l1 link w l2, ws = l1 ++ (link, w) :: l2 /\ f w = true)
  \/ Forall (fun lw => f (snd lw) = false) ws.
Proof.
  induction ws as [|[link w] ws IH]; [right; constructor|].
  destruct (f w) eqn:Hf.
  - left. by exists [], link, w, ws.
  - destruct IH as [(l1 & link' & w' & l2 & -> & Hw)|Hall].
    + left. by exists ((link, w) :: l1), link', w', l2.
    + right. by constructor.
Qed.

Lemma count_none (f : worker -> bool) (ws : list (Link * worker)) :
  Forall (fun lw => f (snd lw) = false) ws -> count f ws = 0%nat.
Proof.
  induction 1 as [|[link w] ws Hw _ IH]; [done|].
  rewrite count_cons. simpl in *. by rewrite Hw, IH.
Qed.

Lemma rank_sum_at (l1 l2 : list (Link * worker)) (link : Link)
  (w : worker) :
  list_sum (map (fun lw => rank (snd lw)) (l1 ++ (link, w) :: l2))
  = (list_sum (map (fun lw => rank (snd lw)) l1) + rank w
     + list_sum (map (fun lw => rank (snd lw)) l2))%nat.
Proof. rewrite map_app, list_sum_app. simpl. lia. Qed.

Section Progress.

Variable MaxConcurrentChecks : nat.

Local Abbreviation step := (step MaxConcurrentChecks).

Lemma wstep_rank (link : Link) (w w' : worker) (s s' : shared) :
  wstep MaxConcurrentChecks link (w, s) (w', s') ->
  (rank w' < rank w)%nat.
Proof. inversion 1; subst; simpl; lia. Qed.

Lemma step_measure (s s' : fanout) :
  step s s' -> (measure s' < measure s)%nat.
Proof.
  destruct 1 as [link rest ws s| | |p td l1 l2 link w w' s s' Hw];
    unfold measure; cbn [pc todo workers pc_rank length].
  - rewrite map_app, list_sum_app. simpl. lia.
  - lia.
  - lia.
  - rewrite !rank_sum_at. apply wstep_rank in Hw. lia.
Qed.

Lemma nsteps_measure (n : nat) (s s' : fanout) :
  nsteps step n s s' -> (n + measure s' <= measure s)%nat.
Proof.
  induction 1 as [|n s1 s2 s3 Hstep _ IH]; [lia|].
  apply step_measure in Hstep. lia.
Qed.

Lemma free_worker_steps (p : main_pc) (td : list Link)
  (l1 l2 : list (Link * worker)) (link : Link) (w : worker) (s : shared) :
  free_to_run w = true ->
  exists s', step {| pc := p; todo := td;
                     workers := l1 ++ (link, w) :: l2; sh := s |} s'.
Proof.
  intros Hfree.
  destruct w as [| |[e|]|e|e|r|r|r]; try done;
    eexists; apply step_worker.
  - apply (w_probe _ _ _ {| state := StateClosed; requests := 0;
                            maxRequests := 0 |}
             (fun _ _ => Err (errorString EmptyString))).
  - apply w_accessible.
  - apply w_append.
  - apply w_unlock.
  - apply w_release.
  - apply w_done.
Qed.

Lemma progress (links : list Link) (s : fanout) :
  (1 <= MaxConcurrentChecks)%nat ->
  reachable MaxConcurrentChecks links s ->
  returned s = false ->
  exists s', step s s'.
Proof.
  intros Hcap Hreach Hrun.
  destruct (invariant_reachable _ _ _ Hreach)
    as [Hslots _ Hwg Hmu _ Hloop _ _].
  destruct s as [p td ws s]. cbn [pc todo workers sh] in *.
  destruct p as [| |result]; [| |done].
  { destruct td as [|link rest]; eexists;
      [apply step_loop_end | apply step_spawn]. }
  rewrite Hloop by done.
  destruct (pick_worker free_to_run ws)
    as [(l1 & link & w & l2 & -> & Hw)|Hfree];
    [by apply free_worker_steps|].
  assert (Hnomu : count holds_mutex ws = 0%nat).
  { apply count_none. eapply List.Forall_impl; [|exact Hfree].
    intros [link w]. simpl. by destruct w. }
  destruct (pick_worker wants_mutex ws)
    as [(l1 & link & w & l2 & -> & Hw)|Hwant].
  { destruct w as [| |[e|]| | | | |]; try done.
    eexists. apply step_worker, w_lock.
    rewrite Hnomu in Hmu. by destruct (mu s). }
  destruct (pick_worker blocked ws)
    as [(l1 & link & w & l2 & -> & Hw)|Hblocked].
  { destruct w; try done.
    eexists. apply step_worker, w_acquire.
    assert (Hnone : count holds_slot (l1 ++ (link, Blocked) :: l2) = 0%nat).
    { apply count_none.
      apply Forall_forall. intros [link' w'] Hin. simpl.
      rewrite Forall_forall in Hfree, Hwant.
      specialize (Hfree _ Hin). specialize (Hwant _ Hin). simpl in *.
      by destruct w' as [| |[e|]| | | | |]. }
    lia. }
  eexists. apply step_return.
  rewrite Hwg. apply count_none.
  apply Forall_forall. intros [link w] Hin. simpl.
  rewrite Forall_forall in Hfree, Hwant, Hblocked.
  specialize (Hfree _ Hin). specialize (Hwant _ Hin).
  specialize (Hblocked _ Hin). simpl in *.
  by destruct w as [| |[e|]| | | | |].
Qed.

Lemma runs_to_return (links : list Link) (s : fanout) :
  (1 <= MaxConcurrentChecks)%nat ->
  reachable MaxConcurrentChecks links s ->
  exists s' result, rtc step s s' /\ pc s' = Returned result.
Proof.
  intros Hcap. remember (measure s) as m eqn:Hm. revert s Hm.
  induction m as [m IH] using lt_wf_ind. intros s -> Hreach.
  destruct (returned s) eqn:Hret.
  - unfold returned in Hret. destruct (pc s) as [| |result] eqn:Hpc;
      try done.
    by exists s, result.
  - destruct (progress links s Hcap Hreach Hret) as [s1 Hstep].
    destruct (IH (measure s1) (step_measure _ _ Hstep) s1 eq_refl)
      as (s' & result & Hrun & Hpc).
    { by eapply rtc_r. }
    exists s', result. split; [by eapply rtc_l | done].
Qed.

End Progress.

(** X10: with room for at least one probe ([MaxConcurrentChecks >= 1])
    and probes that return, [checkLinksWithConcurrency] cannot hang: in
    every state it can reach before returning some goroutine or the
    caller can take a step, every run from there is at most [measure]
    steps long, and the call can be run on to its return. *)
Theorem checkLinksWithConcurrency_returns :
  forall (MaxConcurrentChecks : nat) (links : list Link) (s : fanout),
    (1 <= MaxConcurrentChecks)%nat ->
    reachable MaxConcurrentChecks links s ->
    (returned s = false -> exists s', step MaxConcurrentChecks s s')
    /\ (forall n s', nsteps (step MaxConcurrentChecks) n s s' ->
                     (n <= measure s)%nat)
    /\ (exists s' result,
           rtc (step MaxConcurrentChecks) s s' /\ pc s' = Returned result).
Proof.
  intros cap links s Hcap Hreach. split; [|split].
  - by apply (progress cap links).
  - intros n s' Hrun. apply nsteps_measure in Hrun. lia.
  - by apply (runs_to_return cap links).
Qed.

(** X11: with [MaxConcurrentChecks = 0] the semaphore is an unbuffered
    channel nobody receives from: for any links at all no goroutine ever
    gets past its send, so no probe is made and the call never returns;
    once the loop is over nothing can move any more. *)
Theorem checkLinksWithConcurrency_unbuffered :
  forall (links : list Link) (s : fanout),
    links <> [] ->
    reachable 0 links s ->
    Forall (fun lw => snd lw = Blocked) (workers s)
    /\ returned s = false
    /\ (pc s = Waiting -> forall s', ~ step 0 s s').
Proof.
  intros links s Hne Hreach.
  assert (Hblocked : Forall (fun lw => snd lw = Blocked) (workers s)).
  { revert s Hreach. unfold reachable.
    apply (rtc_ind_r
             (fun s => Forall (fun lw => snd lw = Blocked) (workers s))
             (init links)); [constructor|].
    intros s s' _ Hstep Hinv.
    destruct Hstep as [| | |p td l1 l2 link w w' sh sh' Hw];
      cbn [workers] in *; try done.
    - apply Forall_app. split; [done|]. by repeat constructor.
    - apply Forall_app in Hinv as [_ [Hb _]%Forall_cons].
      simpl in Hb. subst w. inversion Hw; subst. lia. }
  destruct (invariant_reachable _ _ _ Hreach)
    as [_ _ Hwg _ Hlinks Hloop Hret _].
  assert (Hlive : count live (workers s) = length (workers s)).
  { clear -Hblocked. induction Hblocked as [|[link w] ws Hw _ IH]; [done|].
    rewrite count_cons. simpl in *. subst w. simpl. by rewrite IH. }
  assert (Hwait : pc s <> Spawning -> wg (sh s) <> 0%nat).
  { intros Hpc Hzero. rewrite Hloop, app_nil_r in Hlinks by done.
    rewrite Hwg, Hlive in Hzero.
    destruct (workers s); [|done]. by subst links. }
  split; [done|]. split.
  - unfold returned. destruct (pc s) as [| |result] eqn:Hpc; try done.
    destruct (Hret result eq_refl) as [_ Hzero].
    exfalso. by apply Hwait.
  - intros Hpc s' Hstep.
    destruct Hstep as [| |ws sh Hzero|p td l1 l2 link w w' sh sh' Hw];
      cbn [pc workers LinkChecker.sh] in *; try done.
    + by apply Hwait.
    + apply Forall_app in Hblocked as [_ [Hb _]%Forall_cons].
      simpl in Hb. subst w. inversion Hw; subst. lia.
Qed.

Lemma filterExternalLinks_first_external_witness :
  List.NoDup (map link_URL
                (filterExternalLinks Parse MoreExamples.some_links))
  /\ In "https://other.com/b"
       (map link_URL (filterExternalLinks Parse MoreExamples.some_links)).
Proof.
  destruct (filterExternalLinks_first_external Parse
              MoreExamples.some_links) as (_ & Hnd & _ & Hin).
  split; [exact Hnd|].
  apply (Hin MoreExamples.link_b); [simpl; auto | reflexivity|].
  eexists. reflexivity.
Defined.

Lemma links_to_check_bound_witness :
  (exists to_check,
      links_to_check Parse 1 MoreExamples.some_links = Some to_check
      /\ Z.of_nat (length to_check) <= 1)
  /\ links_to_check Parse (-1) MoreExamples.some_links = None.
Proof.
  split.
  - destruct (proj1 (links_to_check_bound Parse 1 MoreExamples.some_links)
                ltac:(lia)) as (to_check & Hcheck & _ & Hlen & _).
    exists to_check. split; [exact Hcheck | exact Hlen].
  - apply (proj2 (links_to_check_bound Parse (-1)
                    MoreExamples.some_links)). lia.
Defined.

Lemma CheckAccessibility_result_witness :
  failing_status MoreExamples.entry_404
  /\ List.NoDup (map il_URL [MoreExamples.entry_404]).
Proof.
  assert (Hret : CheckAccessibility_returns Parse 100
                   maxConcurrentLinkChecks [Examples.external_link]
                   [MoreExamples.entry_404]).
  { exists [Examples.external_link],
      (MoreExamples.fanout_at (Returned [MoreExamples.entry_404])
         (Exited (Some MoreExamples.entry_404)) 0 0 false
         [MoreExamples.entry_404]).
    split; [reflexivity|]. split; [|reflexivity].
    unfold reachable.
    eapply rtc_l; [apply step_spawn|].
    eapply rtc_l; [apply step_loop_end|].
    eapply rtc_l;
      [apply (step_worker _ Waiting [] [] [] Examples.external_link
                Blocked Probing), w_acquire; simpl;
       unfold maxConcurrentLinkChecks; lia|].
    eapply rtc_l;
      [apply (step_worker _ Waiting [] [] [] Examples.external_link
                Probing),
       (w_probe _ _ _ Examples.closed_breaker
          (Examples.client_answering 404 "404 Not Found"))|].
    change (checkSingleLink Examples.closed_breaker
              (Examples.client_answering 404 "404 Not Found")
              Examples.external_link)
      with (Some MoreExamples.entry_404).
    eapply rtc_l;
      [apply (step_worker _ Waiting [] [] [] Examples.external_link
                (Probed (Some MoreExamples.entry_404))
                (Locked MoreExamples.entry_404)), w_lock; reflexivity|].
    eapply rtc_l;
      [apply (step_worker _ Waiting [] [] [] Examples.external_link
                (Locked MoreExamples.entry_404)
                (Unlocking MoreExamples.entry_404)), w_append|].
    eapply rtc_l;
      [apply (step_worker _ Waiting [] [] [] Examples.external_link
                (Unlocking MoreExamples.entry_404)
                (Releasing (Some MoreExamples.entry_404))), w_unlock|].
    eapply rtc_l;
      [apply (step_worker _ Waiting [] [] [] Examples.external_link
                (Releasing (Some MoreExamples.entry_404))
                (Finishing (Some MoreExamples.entry_404))), w_release|].
    eapply rtc_l;
      [apply (step_worker _ Waiting [] [] [] Examples.external_link
                (Finishing (Some MoreExamples.entry_404))
                (Exited (Some MoreExamples.entry_404))), w_done|].
    eapply rtc_l; [apply step_return; reflexivity|].
    apply rtc_refl. }
  destruct (CheckAccessibility_result Parse 100 maxConcurrentLinkChecks
              [Examples.external_link] [MoreExamples.entry_404] Hret)
    as (Hentries & Hnd & _).
  split; [|exact Hnd].
  apply (Hentries MoreExamples.entry_404). simpl. auto.
Defined.

Lemma checkLinksWithConcurrency_returns_witness :
  exists s',
    step maxConcurrentLinkChecks
      (Examples.probing_state Examples.external_link) s'.
Proof.
  refine (proj1 (checkLinksWithConcurrency_returns maxConcurrentLinkChecks
                   [Examples.external_link]
                   (Examples.probing_state Examples.external_link) _ _)
            eq_refl).
  - unfold maxConcurrentLinkChecks. lia.
  - unfold reachable.
    eapply rtc_l; [apply step_spawn|].
    eapply rtc_l;
      [apply (step_worker _ Spawning [] [] [] Examples.external_link
                Blocked Probing), w_acquire; simpl;
       unfold maxConcurrentLinkChecks; lia|].
    apply rtc_refl.
Defined.

Lemma checkLinksWithConcurrency_unbuffered_witness :
  Forall (fun lw => snd lw = Blocked)
    (workers (MoreExamples.fanout_at Waiting Blocked 0 1 false []))
  /\ returned (MoreExamples.fanout_at Waiting Blocked 0 1 false []) = false.
Proof.
  refine (let H := checkLinksWithConcurrency_unbuffered
                     [Examples.external_link]
                     (MoreExamples.fanout_at Waiting Blocked 0 1 false [])
                     _ _ in
          conj (proj1 H) (proj1 (proj2 H))).
  - done.
  - unfold reachable.
    eapply rtc_l; [apply step_spawn|].
    eapply rtc_l; [apply step_loop_end|].
    apply rtc_refl.
Defined.

End LinkCheckerMoreFacts.

(** ** The page fetcher: what [Fetch] lets through and what it refuses *)

Module WebPageFetcherMoreFacts.
Import GoStrings GoError NetURL Domain GoBreaker WebPageFetcher.

Lemma validateURL_None_iff (url_Parse : string -> Result URL)
  (targetURL : string) :
  validateURL url_Parse targetURL = None
  <-> targetURL <> ""
      /\ exists u, url_Parse targetURL = Ok u
                   /\ (Scheme u = "http" \/ Scheme u = "https")
                   /\ Host u <> ""
                   /\ isPrivateOrLocalURL (Host u) = false.
Proof.
  unfold validateURL.
  destruct (String.eqb_spec targetURL "") as [->|Hne];
    [split; [done | by intros [? _]]|].
  destruct (url_Parse targetURL) as [u|err];
    [|split; [done | by intros [_ (? & ? & _)]]].
  destruct (String.eqb_spec (Scheme u) "") as [Hs|Hs].
  { split; [done|]. intros [_ (u' & [= <-] & [H|H] & _)];
      by rewrite Hs in H. }
  destruct (String.eqb_spec (Scheme u) "http") as [Hh|Hh];
    destruct (String.eqb_spec (Scheme u) "https") as [Hhs|Hhs];
    cbn [negb andb].
  all: try (split; [done|]; by intros [_ (u' & [= <-] & [H|H] & _)]).
  all: destruct (String.eqb_spec (Host u) "") as [Hhost|Hhost];
    [split; [done|]; by intros [_ (u' & [= <-] & _ & H & _)]|].
  all: destruct (isPrivateOrLocalURL (Host u)) eqn:Hp;
    [split; [done|]; intros [_ (u' & [= <-] & _ & _ & H)]; congruence|].
  all: split; [|done]; intros _; split; [done|]; exists u; auto.
Qed.

Lemma fetchWithRetry_Ok (config : WebFetcherConfig) (client : Resty.Client)
  (targetURL : string) (content : WebPageContent) :
  fetchWithRetry config client targetURL = Ok content
  <-> exists resp,
        client Resty.GET targetURL = Ok resp
        /\ 200 <= Resty.StatusCode resp < 300
        /\ Z.of_nat (String.length (Resty.Body resp))
           <= MaxResponseSizeBytes config
        /\ content
           = {| w_URL := Resty.RequestURL resp;
                w_StatusCode := Resty.StatusCode resp;
                HTML := Resty.Body resp;
                ContentType :=
                  Resty.Header_Get (Resty.Header resp) "Content-Type";
                Headers := omap head (Resty.Header resp) |}.
Proof.
  unfold fetchWithRetry.
  destruct (client Resty.GET targetURL) as [resp|err];
    [|split; [done | by intros (? & ? & _)]].
  destruct ((Resty.StatusCode resp <? 200)
            || (Resty.StatusCode resp >=? 300)) eqn:Hout.
  { split; [done|]. intros (resp' & [= <-] & Hin & _).
    apply orb_true_iff in Hout as [H|H]; lia. }
  apply orb_false_iff in Hout as [Hlo Hhi].
  destruct (_ >? _) eqn:Hsize.
  { split; [done|]. intros (resp' & [= <-] & _ & Hle & _). lia. }
  split.
  - intros [= <-]. exists resp. repeat apply conj; try done; lia.
  - by intros (resp' & [= <-] & _ & _ & ->).
Qed.

(** X12: [Fetch] hands back a page exactly when the URL is not empty and
    parses to an http or https URL whose host is not empty and not
    private or local, the breaker lets the request out, the GET is
    answered with a status from 200 to 299, and the body is no longer
    than [MaxResponseSizeBytes]; the page then carries the request URL,
    status, body and headers of that response.  The content type plays no
    part: a response that is not HTML is handed back like any other. *)
Theorem Fetch_page :
  forall (url_Parse : string -> Result URL) (config : WebFetcherConfig)
         (cb : CircuitBreaker) (client : Resty.Client) (targetURL : string)
         (content : WebPageContent),
    Fetch url_Parse config cb client targetURL = Ok content
    <-> (targetURL <> ""
         /\ exists u, url_Parse targetURL = Ok u
                      /\ (Scheme u = "http" \/ Scheme u = "https")
                      /\ Host u <> ""
                      /\ isPrivateOrLocalURL (Host u) = false)
        /\ beforeRequest cb = None
        /\ exists resp,
            client Resty.GET targetURL = Ok resp
            /\ 200 <= Resty.StatusCode resp < 300
            /\ Z.of_nat (String.length (Resty.Body resp))
               <= MaxResponseSizeBytes config
            /\ content
               = {| w_URL := Resty.RequestURL resp;
                    w_StatusCode := Resty.StatusCode resp;
                    HTML := Resty.Body resp;
                    ContentType :=
                      Resty.Header_Get (Resty.Header resp) "Content-Type";
                    Headers := omap head (Resty.Header resp) |}.
Proof.
  intros url_Parse config cb client targetURL content.
  rewrite <- validateURL_None_iff, <- fetchWithRetry_Ok.
  unfold Fetch, Execute.
  destruct (validateURL url_Parse targetURL) as [err|];
    [split; [done | by intros [? _]]|].
  destruct (beforeRequest cb) as [err|].
  { split; [by destruct (Is_sentinel err ErrOpenState)|].
    by intros (_ & ? & _). }
  destruct (fetchWithRetry config client targetURL) as [page|err].
  - split; [by intros [= ->] | by intros (_ & _ & [= ->])].
  - split; [by destruct (Is_sentinel err ErrOpenState)|].
    by intros (_ & _ & ?).
Qed.

Lemma fetchWithRetry_Err (config : WebFetcherConfig)
  (client : Resty.Client) (targetURL : string) (e : error) :
  fetchWithRetry config client targetURL = Err e ->
  exists d, e = domainError d
            /\ ((Code d = "RESPONSE_TOO_LARGE" /\ StatusCode d = 413)
                \/ (Code d = "URL_NOT_REACHABLE"
                    /\ (StatusCode d < 200 \/ 300 <= StatusCode d))).
Proof.
  unfold fetchWithRetry.
  destruct (client Resty.GET targetURL) as [resp|err].
  - destruct ((Resty.StatusCode resp <? 200)
              || (Resty.StatusCode resp >=? 300)) eqn:Hout.
    + apply orb_true_iff in Hout.
      intros [= <-]. eexists. split; [done|]. right. cbn.
      split; [done|]. destruct Hout; [left | right]; lia.
    + destruct (_ >? _); [|done].
      intros [= <-]. eexists. split; [done|]. left. by cbn.
  - intros [= <-]. eexists. split; [done|]. right. cbn.
    split; [done | left; lia].
Qed.

(** X13: every error of [Fetch] is a domain error with code INVALID_URL
    (400), CIRCUIT_BREAKER_OPEN (503), RESPONSE_TOO_LARGE (413) or
    URL_NOT_REACHABLE (with a status outside 200..299), or else the
    breaker's own too-many-requests error, handed on as it is.  An
    invalid URL and a refusing breaker are answered without a request:
    the answer is the same whatever the client would do. *)
Theorem Fetch_refusals :
  forall (url_Parse : string -> Result URL) (config : WebFetcherConfig)
         (cb : CircuitBreaker) (client : Resty.Client) (targetURL : string),
    (forall e, Fetch url_Parse config cb client targetURL = Err e ->
               fetch_refusal e)
    /\ (validateURL url_Parse targetURL <> None
        \/ beforeRequest cb <> None ->
        forall client',
          Fetch url_Parse config cb client' targetURL
          = Fetch url_Parse config cb client targetURL)
    /\ (forall cause,
           validateURL url_Parse targetURL = Some cause ->
           Fetch url_Parse config cb client targetURL
           = Err (domainError (NewInvalidURLError targetURL (Some cause))))
    /\ (validateURL url_Parse targetURL = None ->
        state cb = StateOpen ->
        Fetch url_Parse config cb client targetURL
        = Err (domainError
                 (NewDomainError "CIRCUIT_BREAKER_OPEN"
                    "Service temporarily unavailable due to repeated failures"
                    503 (Some (Sentinel ErrOpenState))))).
Proof.
  intros url_Parse config cb client targetURL.
  split; [|split; [|split]].
  - unfold Fetch, Execute, fetch_refusal.
    destruct (validateURL url_Parse targetURL) as [cause|].
    { intros e [= <-]. left. eexists. split; [done|]. by left. }
    destruct (beforeRequest cb) as [err|] eqn:Hcb.
    { unfold beforeRequest in Hcb.
      destruct (state cb);
        [done | destruct (requests cb >=? maxRequests cb); [|done] |];
        injection Hcb as <-; cbn [Is_sentinel]; intros e [= <-].
      - by right.
      - left. eexists. split; [done|]. right; left. by cbn. }
    destruct (fetchWithRetry config client targetURL) as [page|err] eqn:Hf;
      [done|].
    destruct (fetchWithRetry_Err _ _ _ _ Hf) as (d & -> & Hd).
    destruct (Is_sentinel (domainError d) ErrOpenState); intros e [= <-];
      left; (eexists; split; [done|]).
    + right; left. by cbn.
    + right; right. exact Hd.
  - intros Hrefuse client'. unfold Fetch, Execute.
    destruct (validateURL url_Parse targetURL); [done|].
    destruct (beforeRequest cb); [done|]. by destruct Hrefuse.
  - intros cause Hv. unfold Fetch. by rewrite Hv.
  - intros Hv Hopen. unfold Fetch, Execute, beforeRequest.
    by rewrite Hv, Hopen.
Qed.

(** *** Hosts [isPrivateOrLocalURL] stops *)

Lemma map_bytes_app (f : ascii -> ascii) (a b : string) :
  map_bytes f (a +:+ b) = map_bytes f a +:+ map_bytes f b.
Proof. induction a as [|c a IH]; [done|]. simpl. by rewrite IH. Qed.

Lemma prefix_app (p rest : string) : String.prefix p (p +:+ rest) = true.
Proof.
  induction p as [|c p IH]; [by destruct rest|].
  simpl. by destruct (ascii_dec c c).
Qed.

Lemma prefix_split (p s : string) :
  String.prefix p s = true -> exists rest, s = p +:+ rest.
Proof.
  revert s. induction p as [|c p IH]; intros s; [by exists s|].
  destruct s as [|c' s]; [done|]. simpl.
  destruct (ascii_dec c c') as [->|]; [|done].
  intros (rest & ->)%IH. by exists rest.
Qed.

Lemma substring_all (s : string) : substring 0 (String.length s) s = s.
Proof. induction s as [|c s IH]; [done|]. simpl. by rewrite IH. Qed.

Lemma substring_skip (a b : string) (m : nat) :
  substring (String.length a) m (a +:+ b) = substring 0 m b.
Proof. induction a as [|c a IH]; [done|]. simpl. exact IH. Qed.

Lemma length_append (a b : string) :
  String.length (a +:+ b) = (String.length a + String.length b)%nat.
Proof. induction a as [|c a IH]; [done|]. simpl. by rewrite IH. Qed.

Lemma HasSuffix_app (a b : string) : HasSuffix (a +:+ b) b = true.
Proof.
  unfold HasSuffix. rewrite length_append.
  destruct (Nat.leb_spec (String.length b)
              (String.length a + String.length b)) as [_|]; [|lia].
  replace (String.length a + String.length b - String.length b)%nat
    with (String.length a) by lia.
  rewrite substring_skip, substring_all. apply String.eqb_refl.
Qed.

Lemma substring_split (s : string) (k : nat) :
  (k <= String.length s)%nat ->
  s = substring 0 k s +:+ substring k (String.length s - k) s.
Proof.
  revert k. induction s as [|c s IH]; intros k Hk.
  - simpl in Hk. by replace k with 0%nat by lia.
  - destruct k as [|k].
    + simpl. by rewrite substring_all.
    + simpl in *. change (String c s
                          = String c (substring 0 k s
                                      +:+ substring k (String.length s - k) s)).
      f_equal. apply IH. lia.
Qed.

Lemma HasSuffix_split (s suf : string) :
  HasSuffix s suf = true -> exists sub, s = sub +:+ suf.
Proof.
  unfold HasSuffix.
  destruct (Nat.leb_spec (String.length suf) (String.length s)) as [Hle|];
    [|done].
  intros Heq%String.eqb_eq.
  exists (substring 0 (String.length s - String.length suf) s).
  rewrite (substring_split s (String.length s - String.length suf)) at 1
    by lia.
  f_equal. etrans; [|exact Heq]. f_equal. lia.
Qed.

Lemma ToLower_privatePrefixes (p : string) :
  In p privatePrefixes -> ToLower p = p.
Proof.
  unfold privatePrefixes. cbn [In].
  intros H. repeat (destruct H as [<-|H]; [reflexivity|]). done.
Qed.

Lemma ToLower_privateHosts (h : string) :
  In h privateHosts -> ToLower h = h.
Proof.
  unfold privateHosts. cbn [In].
  intros H. repeat (destruct H as [<-|H]; [reflexivity|]). done.
Qed.

(** X14: [isPrivateOrLocalURL] stops a host that is, in any spelling of
    case, one of the four listed names, any host that ends in a dot and
    one of those names, and any host that begins with one of the eighteen
    listed prefixes, whatever follows (a port, or the rest of a public
    name such as one beginning [10.]); and it stops nothing else. *)
Theorem isPrivateOrLocalURL_stops :
  (forall host, In (ToLower host) privateHosts ->
                isPrivateOrLocalURL host = true)
  /\ (forall h sub, In h privateHosts ->
                    isPrivateOrLocalURL (sub +:+ "." +:+ h) = true)
  /\ (forall p rest, In p privatePrefixes ->
                     isPrivateOrLocalURL (p +:+ rest) = true)
  /\ (forall host,
         isPrivateOrLocalURL host = true ->
         (exists h, In h privateHosts
                    /\ (ToLower host = h
                        \/ exists sub, ToLower host = sub +:+ "." +:+ h))
         \/ (exists p rest, In p privatePrefixes
                            /\ ToLower host = p +:+ rest)).
Proof.
  split; [|split; [|split]].
  - intros host Hin. unfold isPrivateOrLocalURL.
    apply orb_true_iff. left. apply existsb_exists.
    exists (ToLower host). split; [done|].
    by rewrite String.eqb_refl.
  - intros h sub Hin. unfold isPrivateOrLocalURL.
    apply orb_true_iff. left. apply existsb_exists.
    exists h. split; [done|]. apply orb_true_iff. right.
    unfold ToLower. rewrite !map_bytes_app.
    fold (ToLower h). rewrite (ToLower_privateHosts h Hin).
    change (map_bytes lower_byte ".") with ".".
    apply HasSuffix_app.
  - intros p rest Hin. unfold isPrivateOrLocalURL.
    apply orb_true_iff. right. apply existsb_exists.
    exists p. split; [done|].
    unfold ToLower. rewrite map_bytes_app.
    fold (ToLower p). rewrite (ToLower_privatePrefixes p Hin).
    apply prefix_app.
  - intros host. unfold isPrivateOrLocalURL.
    intros [H|H]%orb_true_iff;
      apply existsb_exists in H as (y & Hin & Hy).
    + left. exists y. split; [done|].
      apply orb_true_iff in Hy as [Heq%String.eqb_eq|Hsuf]; [by left|].
      right. by apply HasSuffix_split.
    + right. apply prefix_split in Hy as (rest & Hrest).
      by exists y, rest.
Qed.

Lemma Fetch_page_witness :
  exists content,
    Fetch Parse Examples.fetcher_config Examples.closed_breaker
      (Examples.client_answering 200 "200 OK") "https://example.com"
    = Ok content
    /\ w_StatusCode content = 200.
Proof.
  eexists. split.
  - apply (proj2 (Fetch_page Parse Examples.fetcher_config
                    Examples.closed_breaker
                    (Examples.client_answering 200 "200 OK")
                    "https://example.com" _)).
    split; [split; [done|]|split; [reflexivity|]].
    + eexists. split; [reflexivity|]. split; [by right|].
      split; [done | reflexivity].
    + exists (Examples.answer 200 "200 OK").
      split; [reflexivity|]. split; [simpl; lia|].
      split; [simpl; lia | reflexivity].
  - reflexivity.
Defined.

Lemma Fetch_refusals_witness :
  fetch_refusal
    (domainError
       (NewDomainError "CIRCUIT_BREAKER_OPEN"
          "Service temporarily unavailable due to repeated failures"
          503 (Some (Sentinel ErrOpenState))))
  /\ Fetch Parse Examples.fetcher_config Examples.closed_breaker
       (Examples.client_answering 200 "200 OK") "ftp://example.com"
     = Fetch Parse Examples.fetcher_config Examples.closed_breaker
         (Examples.client_failing (errorString "no route")) 
         "ftp://example.com".
Proof.
  split.
  - exact (proj1 (Fetch_refusals Parse Examples.fetcher_config
                    Examples.open_breaker
                    (Examples.client_answering 200 "200 OK")
                    "https://example.com") _ eq_refl).
  - apply (proj1 (proj2 (Fetch_refusals Parse Examples.fetcher_config
                           Examples.closed_breaker
                           (Examples.client_failing
                              (errorString "no route"))
                           "ftp://example.com"))).
    left. by vm_compute.
Defined.

Lemma isPrivateOrLocalURL_stops_witness :
  isPrivateOrLocalURL "10.example.com" = true
  /\ isPrivateOrLocalURL "app.localhost" = true.
Proof.
  split.
  - apply (proj1 (proj2 (proj2 isPrivateOrLocalURL_stops))
             "10." "example.com").
    simpl. auto.
  - apply (proj1 (proj2 isPrivateOrLocalURL_stops) "localhost" "app").
    simpl. auto.
Defined.

End WebPageFetcherMoreFacts.

(** ** The service: calls one after the other *)

Module ServiceMoreFacts.
Import GoStrings GoError Domain Service.

Section WithRepositories.

Context {D C : Type} `{!AnalysisRepository D} `{!CacheRepository C}.

Local Abbreviation world' := (world D C).

(** X15: a [FetchAnalysis] that follows a [StartAnalysis] whose cache
    write went through, with a cache that gives back what was written,
    returns the record [StartAnalysis] returned and does not read the
    durable store.  When the cache does not answer with the record, it
    is read from the durable store, once, and written to the cache
    again. *)
Theorem StartAnalysis_then_FetchAnalysis :
  forall (w : world') (url : string) (options : AnalysisOptions)
         (d' : D) (analysis : Analysis) (c' : C) (setErr : option error),
    Save (analysisRepo w) url options = (d', Ok analysis) ->
    Set_ (cacheRepo w) analysis = (c', setErr) ->
    let w1 := snd (StartAnalysis url options w) in
    let result := fst (FetchAnalysis (ID analysis) w1) in
    let w2 := snd (FetchAnalysis (ID analysis) w1) in
    fst (StartAnalysis url options w) = Ok analysis
    /\ (forall c'',
           setErr = None ->
           Find c' (ID analysis) = (c'', Ok analysis) ->
           result = Ok analysis
           /\ calls w2
              = calls w ++ [ DurableSave url options; CacheSet analysis;
                             CacheFind (ID analysis) ]
           /\ analysisRepo w2 = d')
    /\ (forall c'' cacheErr d'' found c''' setErr',
           Find c' (ID analysis) = (c'', Err cacheErr) ->
           Find d' (ID analysis) = (d'', Ok found) ->
           Set_ c'' found = (c''', setErr') ->
           result = Ok found
           /\ calls w2
              = calls w ++ [ DurableSave url options; CacheSet analysis;
                             CacheFind (ID analysis);
                             DurableFind (ID analysis); CacheSet found ]).
Proof.
  intros w url options d' analysis c' setErr Hsave Hset w1 result w2.
  subst w1 result w2.
  unfold StartAnalysis, FetchAnalysis, bind, ret, analysisRepo_Save,
    analysisRepo_Find, cacheRepo_Find, cacheRepo_Set, logger_Error.
  rewrite Hsave. cbn. rewrite Hset.
  split; [by destruct setErr|]. split.
  - intros c'' -> Hfind. cbn. rewrite Hfind. cbn.
    by rewrite <- !app_assoc.
  - intros c'' cacheErr d'' found c''' setErr' Hfind Hdfind Hset'.
    destruct setErr; cbn; rewrite Hfind; cbn; rewrite Hdfind; cbn;
      rewrite Hset'; destruct setErr'; cbn; by rewrite <- !app_assoc.
Qed.

(** X16: after a [FetchAnalysis] that missed the cache, found the record
    in the durable store and wrote it to a cache that gives back what was
    written, the next [FetchAnalysis] of the same id returns the same
    record from the cache: over the two calls the durable store is read
    once. *)
Theorem FetchAnalysis_twice :
  forall (w : world') (analysisID : string) (c1 : C) (cacheErr : error)
         (d1 : D) (analysis : Analysis) (c2 c3 : C),
    Find (cacheRepo w) analysisID = (c1, Err cacheErr) ->
    Find (analysisRepo w) analysisID = (d1, Ok analysis) ->
    Set_ c1 analysis = (c2, None) ->
    Find c2 analysisID = (c3, Ok analysis) ->
    let w1 := snd (FetchAnalysis analysisID w) in
    let w2 := snd (FetchAnalysis analysisID w1) in
    fst (FetchAnalysis analysisID w) = Ok analysis
    /\ fst (FetchAnalysis analysisID w1) = Ok analysis
    /\ calls w2
       = calls w ++ [ CacheFind analysisID; DurableFind analysisID;
                      CacheSet analysis; CacheFind analysisID ]
    /\ analysisRepo w2 = d1
    /\ logged w2 = logged w.
Proof.
  intros w analysisID c1 cacheErr d1 analysis c2 c3 Hmiss Hfound Hset Hhit
    w1 w2.
  subst w1 w2.
  unfold FetchAnalysis, bind, ret, analysisRepo_Find, cacheRepo_Find,
    cacheRepo_Set, logger_Error.
  rewrite Hmiss. cbn. rewrite Hfound. cbn. rewrite Hset. cbn.
  rewrite Hhit. cbn. by rewrite <- !app_assoc.
Qed.

End WithRepositories.

(** The key-value cache gives back what was written to it, under the id
    of the record, and nothing under another id. *)
Lemma CacheRepository_Set_Find (client client' : KeydbClient)
  (analysis : Analysis) :
  CacheRepository_Set client analysis = (client', None) ->
  CacheRepository_Find client' (ID analysis) = (client', Ok analysis).
Proof.
  unfold CacheRepository_Set, CacheRepository_Find.
  destruct (unavailable client); [done|].
  intros [= <-]. cbn. by rewrite lookup_insert_eq.
Qed.

Lemma StartAnalysis_then_FetchAnalysis_witness :
  exists analysis,
    fst (StartAnalysis "https://example.com" Examples.defaultOptions
           (Examples.start_world Examples.cache_up))
    = Ok analysis
    /\ fst (FetchAnalysis (ID analysis)
              (snd (StartAnalysis "https://example.com"
                      Examples.defaultOptions
                      (Examples.start_world Examples.cache_up))))
       = Ok analysis.
Proof.
  eexists.
  edestruct (StartAnalysis_then_FetchAnalysis
               (Examples.start_world Examples.cache_up)
               "https://example.com" Examples.defaultOptions)
    as (Hstart & Hhit & _); [reflexivity | reflexivity |].
  split; [exact Hstart|].
  edestruct Hhit as (Hfetch & _); [reflexivity | reflexivity |].
  exact Hfetch.
Defined.

Lemma FetchAnalysis_twice_witness :
  fst (FetchAnalysis "uuid-7"
         (snd (FetchAnalysis "uuid-7"
                 (Examples.fetch_world Examples.cache_up))))
  = Ok Examples.stored_analysis
  /\ calls (snd (FetchAnalysis "uuid-7"
                   (snd (FetchAnalysis "uuid-7"
                           (Examples.fetch_world Examples.cache_up)))))
     = [ CacheFind "uuid-7"; DurableFind "uuid-7";
         CacheSet Examples.stored_analysis; CacheFind "uuid-7" ].
Proof.
  edestruct (FetchAnalysis_twice (Examples.fetch_world Examples.cache_up)
               "uuid-7") as (_ & Hsecond & Hcalls & _);
    [reflexivity | reflexivity | reflexivity | reflexivity |].
  split; [exact Hsecond | exact Hcalls].
Defined.

End ServiceMoreFacts.

(** ** The in-memory repository *)

Module InMemoryAnalysisRepositoryFacts.
Import GoStrings GoError Domain InMemoryAnalysisRepository.

(** X17: [Create] stores a record under its id exactly when the id is
    not the nil UUID and not yet taken, and never overwrites; after it
    [GetByID] of that id returns the record, every other id reads as
    before, and [Count] is one more.  When it fails the repository is as
    it was. *)
Theorem Create_GetByID :
  forall (r : data) (analysis : Analysis),
    let r' := fst (Create r analysis) in
    (snd (Create r analysis) = None
     <-> ID analysis <> uuid_Nil /\ r !! ID analysis = None)
    /\ (snd (Create r analysis) = None ->
        GetByID r' (ID analysis) = Ok analysis
        /\ (forall id, id <> ID analysis -> GetByID r' id = GetByID r id)
        /\ Count r' = Count r + 1)
    /\ (snd (Create r analysis) <> None -> r' = r).
Proof.
  intros r analysis r'. subst r'. unfold Create.
  destruct (String.eqb_spec (ID analysis) uuid_Nil) as [Hnil|Hnil].
  { cbn. split; [split; [done | by intros [? _]]|]. by split. }
  destruct (r !! ID analysis) as [old|] eqn:Hold; cbn.
  { split; [split; [done | by intros [_ ?]]|]. by split. }
  split; [done|]. split; [|done]. intros _.
  unfold GetByID, Count, deepCopyAnalysis. split; [|split].
  - by rewrite lookup_insert_eq.
  - intros id Hne. by rewrite lookup_insert_ne.
  - rewrite map_size_insert_None by done. lia.
Qed.

(** X18: [Update] replaces the record stored under an id and answers
    [ErrAnalysisNotFound] for an id that is not stored, without storing
    anything; [Delete] removes the record, after which [GetByID] and a
    second [Delete] answer [ErrAnalysisNotFound].  Neither touches
    another id, [Update] keeps [Count] and [Delete] lowers it by one. *)
Theorem Update_Delete :
  forall (r : data) (analysis : Analysis) (id : string),
    (snd (Update r analysis) = None
     <-> ID analysis <> uuid_Nil /\ r !! ID analysis <> None)
    /\ (snd (Update r analysis) = None ->
        GetByID (fst (Update r analysis)) (ID analysis) = Ok analysis
        /\ (forall id', id' <> ID analysis ->
                        GetByID (fst (Update r analysis)) id'
                        = GetByID r id')
        /\ Count (fst (Update r analysis)) = Count r)
    /\ (ID analysis <> uuid_Nil -> r !! ID analysis = None ->
        Update r analysis = (r, Some (Sentinel ErrAnalysisNotFound)))
    /\ (snd (Delete r id) = None <-> r !! id <> None)
    /\ (snd (Delete r id) = None ->
        GetByID (fst (Delete r id)) id = Err (Sentinel ErrAnalysisNotFound)
        /\ snd (Delete (fst (Delete r id)) id)
           = Some (Sentinel ErrAnalysisNotFound)
        /\ (forall id', id' <> id ->
                        GetByID (fst (Delete r id)) id' = GetByID r id')
        /\ Count (fst (Delete r id)) = Count r - 1)
    /\ (r !! id = None ->
        Delete r id = (r, Some (Sentinel ErrAnalysisNotFound))).
Proof.
  intros r analysis id.
  split; [|split; [|split; [|split; [|split]]]].
  - unfold Update.
    destruct (String.eqb_spec (ID analysis) uuid_Nil) as [Hnil|Hnil];
      [cbn; split; [done | by intros [? _]]|].
    destruct (r !! ID analysis); cbn; [done|].
    split; [done | by intros [_ ?]].
  - unfold Update.
    destruct (String.eqb_spec (ID analysis) uuid_Nil) as [Hnil|Hnil];
      [done|].
    destruct (r !! ID analysis) as [old|] eqn:Hold; cbn; [|done].
    intros _. unfold GetByID, Count, deepCopyAnalysis. split; [|split].
    + by rewrite lookup_insert_eq.
    + intros id' Hne. by rewrite lookup_insert_ne.
    + by rewrite map_size_insert_Some.
  - intros Hnil Hnone. unfold Update.
    destruct (String.eqb_spec (ID analysis) uuid_Nil); [done|].
    by rewrite Hnone.
  - unfold Delete. by destruct (r !! id).
  - unfold Delete. destruct (r !! id) as [old|] eqn:Hold; cbn; [|done].
    intros _. unfold GetByID, Count.
    rewrite lookup_delete_eq. split; [done|]. split; [done|]. split.
    + intros id' Hne. by rewrite lookup_delete_ne.
    + rewrite map_size_delete_Some by done.
      assert (size r <> 0%nat); [|lia].
      intros Hzero%map_size_empty_inv. by rewrite Hzero in Hold.
  - intros Hnone. unfold Delete. by rewrite Hnone.
Qed.



Lemma apply_keeps_nil (r : data) (o : op) :
  r !! uuid_Nil = None -> apply r o !! uuid_Nil = None.
Proof.
  intros Hnil. destruct o as [analysis|analysis|id|now olderThan];
    cbn [apply].
  - unfold Create.
    destruct (String.eqb_spec (ID analysis) uuid_Nil); [done|].
    destruct (r !! ID analysis); cbn; [done|].
    by rewrite lookup_insert_ne.
  - unfold Update.
    destruct (String.eqb_spec (ID analysis) uuid_Nil); [done|].
    destruct (r !! ID analysis); cbn; [|done].
    by rewrite lookup_insert_ne.
  - unfold Delete. destruct (r !! id); cbn; [|done].
    destruct (decide (id = uuid_Nil)) as [->|Hne];
      [by rewrite lookup_delete_eq | by rewrite lookup_delete_ne].
  - unfold CleanupOldAnalyses. cbn [fst].
    apply map_lookup_filter_None. by left.
Qed.

Lemma apply_keeps_keys (r : data) (o : op) :
  (forall id analysis, r !! id = Some analysis -> ID analysis = id) ->
  forall id analysis, apply r o !! id = Some analysis -> ID analysis = id.
Proof.
  intros Hkeys id a. destruct o as [analysis|analysis|id'|now olderThan];
    cbn [apply].
  - unfold Create.
    destruct (String.eqb_spec (ID analysis) uuid_Nil); [apply Hkeys|].
    destruct (r !! ID analysis); cbn; [apply Hkeys|].
    destruct (decide (ID analysis = id)) as [<-|Hne].
    + rewrite lookup_insert_eq. by intros [= <-].
    + rewrite lookup_insert_ne by done. apply Hkeys.
  - unfold Update.
    destruct (String.eqb_spec (ID analysis) uuid_Nil); [apply Hkeys|].
    destruct (r !! ID analysis); cbn; [|apply Hkeys].
    destruct (decide (ID analysis = id)) as [<-|Hne].
    + rewrite lookup_insert_eq. by intros [= <-].
    + rewrite lookup_insert_ne by done. apply Hkeys.
  - unfold Delete. destruct (r !! id'); cbn; [|apply Hkeys].
    destruct (decide (id' = id)) as [->|Hne].
    + by rewrite lookup_delete_eq.
    + rewrite lookup_delete_ne by done. apply Hkeys.
  - unfold CleanupOldAnalyses. cbn [fst].
    intros [H _]%map_lookup_filter_Some. by apply Hkeys.
Qed.

(** X20: whatever is created, updated, deleted and cleaned up, in any
    order, starting from the new repository, every record is stored
    under its own id and the nil UUID is never a key. *)
Theorem run_keys :
  forall (ops : list op),
    run ops !! uuid_Nil = None
    /\ (forall id analysis,
           run ops !! id = Some analysis -> ID analysis = id)
    /\ GetByID (run ops) uuid_Nil = Err (Sentinel ErrAnalysisNotFound).
Proof.
  intros ops.
  assert (H : run ops !! uuid_Nil = None
              /\ (forall id analysis,
                     run ops !! id = Some analysis -> ID analysis = id)).
  { unfold run. induction ops as [|o ops IH] using rev_ind.
    - by cbn.
    - rewrite fold_left_app. cbn [fold_left]. destruct IH as [Hnil Hkeys].
      split; [by apply apply_keeps_nil | by apply apply_keeps_keys]. }
  destruct H as [Hnil Hkeys]. split; [done|]. split; [done|].
  unfold GetByID. by rewrite Hnil.
Qed.

Lemma Create_GetByID_witness :
  GetByID (fst (Create NewInMemoryAnalysisRepository
                  Examples.stored_analysis)) "uuid-7"
  = Ok Examples.stored_analysis.
Proof.
  exact (proj1 (proj1 (proj2 (Create_GetByID NewInMemoryAnalysisRepository
                                Examples.stored_analysis)) eq_refl)).
Defined.

Lemma Update_Delete_witness :
  GetByID (fst (Delete MoreExamples.one_record "uuid-7")) "uuid-7"
  = Err (Sentinel ErrAnalysisNotFound)
  /\ Update NewInMemoryAnalysisRepository Examples.stored_analysis
     = (NewInMemoryAnalysisRepository,
        Some (Sentinel ErrAnalysisNotFound)).
Proof.
  pose proof (Update_Delete MoreExamples.one_record
                Examples.stored_analysis "uuid-7")
    as (_ & _ & _ & _ & Hdelete & _).
  pose proof (Update_Delete NewInMemoryAnalysisRepository
                Examples.stored_analysis "uuid-7")
    as (_ & _ & Hmissing & _).
  split.
  - exact (proj1 (Hdelete eq_refl)).
  - apply Hmissing; [done | reflexivity].
Defined.


Lemma run_keys_witness :
  run [ OpCreate Examples.stored_analysis; OpDelete "uuid-7";
        OpCleanup 1700100000 3600 ] !! uuid_Nil = None.
Proof.
  exact (proj1 (run_keys [ OpCreate Examples.stored_analysis;
                           OpDelete "uuid-7";
                           OpCleanup 1700100000 3600 ])).
Defined.

End InMemoryAnalysisRepositoryFacts.
